(** * analyze_music.py: event detection and timeline synthesis

    A shallow embedding of [src/analyze_music.py].

    Numbers.  The script computes on IEEE floats (numpy arrays and Python
    floats).  Here a finite float is an exact rational ([Q]): every
    arithmetic operation is the real-number one, and [==] is [Qeq].  The
    places where numpy leaves the finite numbers (a division by zero yields
    [nan] or [inf] and a warning, never an exception) are kept explicit by
    the type [npfloat].  Signed zeros are not distinguished.

    Double precision.  Where the result turns on how a double is rounded
    (the percentage of a big drop, and the comparisons of the timeline loop,
    which meet exact ties and window edges on real tracks) the operations
    are those of IEEE binary64: the exact operation followed by [fl64],
    rounding to the nearest double, ties to even.  A double is then the
    rational it denotes.

    Audio features.  Decoding, beat tracking, onset strength and the STFT
    are librosa's; their results are the fields of [features].  The frame
    time axes are the ones librosa computes, [frame * hop_length / sr] with
    its default [hop_length] of 512 samples. *)

From Stdlib Require Import String.
From Stdlib Require Import QArith Qround Qabs Qpower ZArith List Bool Lia Lqa.
From Stdlib Require Import Sorting.Sorted.
Import ListNotations.

Local Open Scope Q_scope.

(** ** Comparisons as the source writes them *)

(** [x < y] on two finite floats. *)
Definition Qltb (x y : Q) : bool := negb (Qle_bool y x).

(** ** Extended values: what numpy's true division can return *)

Inductive npfloat : Type :=
| Finite (q : Q)
| PosInf
| NegInf
| NaN.

(** [x / y] on numpy floats: no exception on a zero divisor. *)
Definition np_div (x y : Q) : npfloat :=
  if Qeq_bool y 0 then
    if Qeq_bool x 0 then NaN
    else if Qltb 0 x then PosInf else NegInf
  else Finite (x / y).

(** ** Rounding: [round(x, ndigits)] *)

(** Round half to even, to an integer. *)
Definition round_half_even (x : Q) : Z :=
  let f := Qfloor x in
  let r := x - inject_Z f in
  if Qltb r (1 # 2) then f
  else if Qltb (1 # 2) r then (f + 1)%Z
  else if Z.even f then f else (f + 1)%Z.

Definition pow10 (n : nat) : Z := (10 ^ Z.of_nat n)%Z.

(** [round(x, n)] for a finite [x]. *)
Definition py_round (n : nat) (x : Q) : Q :=
  inject_Z (round_half_even (x * inject_Z (pow10 n))) / inject_Z (pow10 n).

(** [round(x, n)] on an extended value: [nan] and the infinities are kept. *)
Definition np_round (n : nat) (v : npfloat) : npfloat :=
  match v with
  | Finite q => Finite (py_round n q)
  | other => other
  end.

(** ** IEEE binary64 *)

(** The binary exponent of a positive [x]: [2^e <= x < 2^(e+1)]. *)
Definition ilog2 (x : Q) : Z :=
  let c := (Z.log2 (Qnum x) - Z.log2 (Zpos (Qden x)))%Z in
  if Qle_bool (2 ^ c) x then c else (c - 1)%Z.

(** Rounding to the nearest value with [prec] significant bits, ties to
    even (exponent range unbounded). *)
Definition fl (prec : Z) (x : Q) : Q :=
  if Qeq_bool x 0 then 0
  else
    let a := Qabs x in
    let u := 2 ^ (ilog2 a - (prec - 1)) in
    let m := inject_Z (round_half_even (a / u)) * u in
    if Qltb x 0 then - m else m.

(** The nearest double. *)
Definition fl64 : Q -> Q := fl 53.

(** [x / y] on two float64 scalars. *)
Definition np_div64 (x y : Q) : npfloat :=
  if Qeq_bool y 0 then
    if Qeq_bool x 0 then NaN
    else if Qltb 0 x then PosInf else NegInf
  else Finite (fl64 (fl64 x / fl64 y)).

(** [v * c] on float64, for a finite factor [c > 0]. *)
Definition np_mul64 (v : npfloat) (c : Q) : npfloat :=
  match v with
  | Finite q => Finite (fl64 (q * c))
  | other => other
  end.

(** ** numpy reductions and helpers *)

Inductive exn : Type :=
| ValueError (msg : string)
| ProviderError (msg : string)
| OSError (msg : string).

Inductive result (A : Type) : Type :=
| Ok (a : A)
| Raise (e : exn).
Arguments Ok {A} a.
Arguments Raise {A} e.

Definition bind {A B : Type} (m : result A) (k : A -> result B) : result B :=
  match m with
  | Ok a => k a
  | Raise e => Raise e
  end.

Notation "x <- m ;; k" := (bind m (fun x => k))
  (at level 61, m at next level, right associativity).

Definition Qmaxb (x y : Q) : Q := if Qltb x y then y else x.

(** [np.max(a)]: raises [ValueError] on an empty array. *)
Definition np_max (a : list Q) : result Q :=
  match a with
  | [] => Raise (ValueError "zero-size array to reduction operation maximum which has no identity"%string)
  | x :: xs => Ok (fold_left Qmaxb xs x)
  end.

Definition Qsum (a : list Q) : Q := fold_right Qplus 0 a.

(** [np.mean(a)] of a non-empty array. *)
Definition np_mean (a : list Q) : Q := Qsum a / inject_Z (Z.of_nat (length a)).

(** [a[lo:hi]]: Python slicing, clipped to the array. *)
Definition slice (a : list Q) (lo hi : nat) : list Q :=
  firstn (hi - lo) (skipn lo a).

Fixpoint insert_sorted (x : Q) (l : list Q) : list Q :=
  match l with
  | [] => [x]
  | y :: ys => if Qle_bool x y then x :: l else y :: insert_sorted x ys
  end.

Definition sort_floats (l : list Q) : list Q := fold_right insert_sorted [] l.

(** [np.percentile(a, p)] with the default linear interpolation between the
    two closest ranks, for a non-empty array. *)
Definition np_percentile (a : list Q) (p : Q) : Q :=
  let s := sort_floats a in
  let n := length s in
  let pos := inject_Z (Z.of_nat (n - 1)) * p / 100 in
  let lo := Z.to_nat (Qfloor pos) in
  let hi := Nat.min (lo + 1) (n - 1) in
  let g := pos - inject_Z (Z.of_nat lo) in
  nth lo s 0 + g * (nth hi s 0 - nth lo s 0).

(** [np.argmin(a)]: index of the first minimum. *)
Fixpoint argmin_from (best : Q) (besti : nat) (i : nat) (a : list Q) : nat :=
  match a with
  | [] => besti
  | x :: xs =>
      if Qltb x best then argmin_from x i (S i) xs
      else argmin_from best besti (S i) xs
  end.

Definition np_argmin (a : list Q) : nat :=
  match a with
  | [] => 0%nat
  | x :: xs => argmin_from x 0%nat 1%nat xs
  end.

(** [np.arange(0, stop, step)]: [ceil(stop / step)] values [i * step]. *)
Definition np_arange (stop step : Q) : list Q :=
  map (fun i => inject_Z (Z.of_nat i) * step)
      (seq 0 (Z.to_nat (Qceiling (stop / step)))).

(** [any(abs(b - t) < tol for b in bs)] *)
Definition any_within (tol t : Q) (bs : list Q) : bool :=
  existsb (fun b => Qltb (Qabs (b - t)) tol) bs.

(** ** Audio features (librosa) *)

(** librosa's default hop between analysis frames, in samples; the script
    never overrides it. *)
Definition hop_length : Z := 512.

(** [librosa.frames_to_time(frame, sr=sr)] *)
Definition frames_to_time (sr : positive) (frame : nat) : Q :=
  inject_Z (Z.of_nat frame * hop_length) / inject_Z (Zpos sr).

(** [librosa.frames_to_time(np.arange(n), sr=sr)], also what
    [librosa.times_like] returns for an array of [n] frames. *)
Definition frame_times (sr : positive) (n : nat) : list Q :=
  map (frames_to_time sr) (seq 0 n).

(** The tempo as [beat_track] returns it: a scalar, or an array in newer
    librosa versions. *)
Inductive tempo_value : Type :=
| TempoScalar (bpm : Q)
| TempoArray (bpms : list Q).

(** One spectrogram frame reduced to its three band means,
    [np.mean(S[mask, :], axis=0)] at that frame. *)
Record band_frame : Type := {
  bf_bass : Q;
  bf_mid : Q;
  bf_high : Q
}.

(** What the librosa calls of [analyze_music] return for one file. *)
Record features : Type := {
  ft_duration : Q;                (* librosa.get_duration *)
  ft_sr : positive;               (* sample rate returned by librosa.load *)
  ft_tempo : tempo_value;         (* beat_track, first result *)
  ft_beat_times : list Q;         (* frames_to_time(beat_frames) *)
  ft_onset_env : list Q;          (* onset_strength, before normalisation *)
  ft_bands : list band_frame      (* band means of |stft|, one per frame *)
}.

(** The sample rate [librosa.load(filepath)] resamples to when, as here, no
    [sr=] argument is given. *)
Definition default_sr : positive := 22050%positive.

(** ** Normalisation (lines 51-52 and 71-74) *)

(** [onset_env = onset_env / np.max(onset_env)] *)
Definition normalize_onset (onset_env : list Q) : result (list npfloat) :=
  m <- np_max onset_env ;;
  Ok (map (fun x => np_div x m) onset_env).

(** [e = e / np.max(e) if np.max(e) > 0 else e] *)
Definition normalize_band (e : list Q) : result (list Q) :=
  m <- np_max e ;;
  if Qltb 0 m then Ok (map (fun x => x / m) e) else Ok e.

(** ** Transient drops (lines 78-94) *)

Definition min_drop_gap : Q := 2.

Definition bass_threshold (bass_energy : list Q) : Q :=
  np_percentile bass_energy 85.

(** The body of the loop at iteration [i]; the state is
    [(drops, last_drop_time)]. *)
Definition drop_step (bass_energy spec_times : list Q) (threshold : Q)
    (st : list Q * Q) (i : nat) : list Q * Q :=
  let t := nth i spec_times 0 in
  if (5 <? i)%nat then
    let recent_avg := np_mean (slice bass_energy (i - 5) i) in
    let current := nth i bass_energy 0 in
    if Qltb threshold current
       && Qltb (recent_avg * 1.5) current
       && Qltb min_drop_gap (t - snd st)
    then (fst st ++ [py_round 3 t], t)
    else st
  else st.

Definition drops_loop (bass_energy spec_times : list Q) : list Q * Q :=
  fold_left (drop_step bass_energy spec_times (bass_threshold bass_energy))
            (seq 1 (length bass_energy - 1))
            ([], - min_drop_gap).

Definition detect_drops (bass_energy spec_times : list Q) : list Q :=
  fst (drops_loop bass_energy spec_times).

(** ** Big drops (lines 98-124) *)

Definition window_before : nat := 40.
Definition window_after : nat := 20.
Definition min_big_drop_gap : Q := 10.

Record big_drop : Type := {
  bd_time : Q;
  bd_percent : npfloat;
  bd_intensity : Q
}.

Definition bass_before (bass_energy : list Q) (i : nat) : Q :=
  np_mean (slice bass_energy (i - window_before) i).

Definition bass_after (bass_energy : list Q) (i : nat) : Q :=
  np_mean (slice bass_energy i (i + window_after)).

(** The dictionary appended at a flagged frame with time [t]. *)
Definition big_drop_record (duration t before after : Q) : big_drop :=
  {| bd_time := py_round 3 t;
     bd_percent := np_round 1 (np_mul64 (np_div64 t duration) 100);
     bd_intensity := if Qltb 0 before then py_round 2 (after / before)
                     else 10 |}.

(** The body of the loop at iteration [i]; the state is
    [(big_drops, last_big_drop_time)]. *)
Definition big_drop_step (duration : Q) (bass_energy spec_times : list Q)
    (st : list big_drop * Q) (i : nat) : list big_drop * Q :=
  let t := nth i spec_times 0 in
  let before := bass_before bass_energy i in
  let after := bass_after bass_energy i in
  if Qltb before 0.15 && Qltb 0.3 after && Qltb (before * 3) after then
    if Qltb min_big_drop_gap (t - snd st) then
      (fst st ++ [big_drop_record duration t before after], t)
    else st
  else st.

Definition big_drops_loop (duration : Q) (bass_energy spec_times : list Q)
    : list big_drop * Q :=
  fold_left (big_drop_step duration bass_energy spec_times)
            (seq window_before
                 (length bass_energy - window_after - window_before))
            ([], - min_big_drop_gap).

Definition detect_big_drops (duration : Q) (bass_energy spec_times : list Q)
    : list big_drop :=
  fst (big_drops_loop duration bass_energy spec_times).

(** ** Timeline (lines 128-151) *)

(** The loop in exact arithmetic: the ticks are the exact multiples of
    0.05 and distances are compared as real numbers.  The section after
    this one has the same loop on doubles, which is what decides the
    sampled frame on an exact tie and the flag of a tick on the edge of a
    window. *)

Definition sample_interval : Q := 0.05.

Record entry : Type := {
  e_t : Q;
  e_bass : Q;
  e_mid : Q;
  e_high : Q;
  e_onset : npfloat;
  e_beat : bool;
  e_drop : bool
}.

(** [np.argmin(np.abs(times - t))] *)
Definition closest_index (times : list Q) (t : Q) : nat :=
  np_argmin (map (fun x => Qabs (x - t)) times).

(** The normalised curves and the event lists the timeline loop reads. *)
Record curves : Type := {
  cv_onset_env : list npfloat;
  cv_onset_times : list Q;
  cv_bass_energy : list Q;
  cv_mid_energy : list Q;
  cv_high_energy : list Q;
  cv_spec_times : list Q;
  cv_beat_times : list Q;
  cv_drops : list Q
}.

(** The body of the loop for the tick [t]. *)
Definition timeline_entry (c : curves) (t : Q) : entry :=
  let onset_idx := closest_index (cv_onset_times c) t in
  let spec_idx := closest_index (cv_spec_times c) t in
  let is_beat := any_within (sample_interval / 2) t (cv_beat_times c) in
  let is_drop := any_within 0.1 t (cv_drops c) in
  {| e_t := py_round 3 t;
     e_bass := py_round 3 (nth spec_idx (cv_bass_energy c) 0);
     e_mid := py_round 3 (nth spec_idx (cv_mid_energy c) 0);
     e_high := py_round 3 (nth spec_idx (cv_high_energy c) 0);
     e_onset := np_round 3 (nth onset_idx (cv_onset_env c) NaN);
     e_beat := is_beat;
     e_drop := is_drop |}.

Definition ticks (duration : Q) : list Q := np_arange duration sample_interval.

Definition build_timeline (c : curves) (duration : Q) : list entry :=
  map (timeline_entry c) (ticks duration).

(** ** The timeline loop in double precision (lines 128-151) *)

(** [sample_interval] as the double the script holds. *)
Definition sample_interval64 : Q := fl64 sample_interval.

(** Element [k] of [np.arange(0, duration, sample_interval)]. *)
Definition tick64 (k : nat) : Q :=
  fl64 (inject_Z (Z.of_nat k) * sample_interval64).


(** [np.abs(times - t)] for a double [t]. *)
Definition distances64 (times : list Q) (t : Q) : list Q :=
  map (fun x => Qabs (fl64 (fl64 x - t))) times.

(** [np.argmin(np.abs(times - t))] *)
Definition closest_index64 (times : list Q) (t : Q) : nat :=
  np_argmin (distances64 times t).

(** [any(abs(b - t) < tol for b in bs)] on doubles. *)
Definition any_within64 (tol t : Q) (bs : list Q) : bool :=
  existsb (fun b => Qltb (Qabs (fl64 (fl64 b - t))) tol) bs.

(** The two tolerances as doubles: [sample_interval / 2] and [0.1]. *)
Definition beat_tolerance64 : Q := fl64 (sample_interval64 / 2).
Definition drop_tolerance64 : Q := fl64 0.1.

(** The body of the loop for the double [t]. *)
Definition timeline_entry64 (c : curves) (t : Q) : entry :=
  let onset_idx := closest_index64 (cv_onset_times c) t in
  let spec_idx := closest_index64 (cv_spec_times c) t in
  let is_beat := any_within64 beat_tolerance64 t (cv_beat_times c) in
  let is_drop := any_within64 drop_tolerance64 t (cv_drops c) in
  {| e_t := py_round 3 t;
     e_bass := py_round 3 (nth spec_idx (cv_bass_energy c) 0);
     e_mid := py_round 3 (nth spec_idx (cv_mid_energy c) 0);
     e_high := py_round 3 (nth spec_idx (cv_high_energy c) 0);
     e_onset := np_round 3 (nth onset_idx (cv_onset_env c) NaN);
     e_beat := is_beat;
     e_drop := is_drop |}.


(** [librosa.frames_to_time(np.arange(n), sr=sr)] as doubles: the integer
    sample position divided by the rate. *)
Definition frame_times64 (sr : positive) (n : nat) : list Q :=
  map (fun i => fl64 (frames_to_time sr i)) (seq 0 n).

(** ** The result (lines 153-164) *)

Record output : Type := {
  o_duration : Q;
  o_tempo : Q;
  o_beatCount : nat;
  o_beats : list Q;
  o_drops : list Q;
  o_bigDrops : list big_drop;
  o_timeline : list entry
}.

(** Lines 38-42: the first tempo of an array, 120.0 for an empty one. *)
Definition tempo_float (tv : tempo_value) : Q :=
  match tv with
  | TempoScalar bpm => bpm
  | TempoArray bpms => match bpms with
                       | b :: _ => b
                       | [] => 120
                       end
  end.

(** [analyze_music] from the point where librosa has delivered the features
    of the file. *)
Definition analyze_features (f : features) : result output :=
  let duration := ft_duration f in
  let sr := ft_sr f in
  let tempo := tempo_float (ft_tempo f) in
  let beat_times := ft_beat_times f in
  let onset_times := frame_times sr (length (ft_onset_env f)) in
  onset_env <- normalize_onset (ft_onset_env f) ;;
  bass_energy <- normalize_band (map bf_bass (ft_bands f)) ;;
  mid_energy <- normalize_band (map bf_mid (ft_bands f)) ;;
  high_energy <- normalize_band (map bf_high (ft_bands f)) ;;
  let spec_times := frame_times sr (length (ft_bands f)) in
  let drops := detect_drops bass_energy spec_times in
  let big_drops := detect_big_drops duration bass_energy spec_times in
  let c := {| cv_onset_env := onset_env;
              cv_onset_times := onset_times;
              cv_bass_energy := bass_energy;
              cv_mid_energy := mid_energy;
              cv_high_energy := high_energy;
              cv_spec_times := spec_times;
              cv_beat_times := beat_times;
              cv_drops := drops |} in
  let timeline := build_timeline c duration in
  Ok {| o_duration := py_round 2 duration;
        o_tempo := py_round 1 tempo;
        o_beatCount := length beat_times;
        o_beats := map (py_round 3) beat_times;
        o_drops := drops;
        o_bigDrops := big_drops;
        o_timeline := timeline |}.

(** [analyze_music(filepath)]: [provider] stands for the librosa calls, which
    either deliver the features of the file or raise. *)
Definition analyze_music (provider : string -> result features)
    (filepath : string) : result output :=
  f <- provider filepath ;;
  analyze_features f.

(** ** The command (lines 167-191) *)

(** What [main] itself prints. *)
Inductive line : Type :=
| UsageLine
| ExampleLine
| ErrorLine (e : exn)
| SuccessLine (output_file : string)
| DurationLine (d : Q)
| TempoLine (bpm : Q)
| BeatsLine (n : nat)
| EntriesLine (n : nat).

(** The file [music_timeline.json]. *)
Inductive file : Type :=
| NoFile
| Stale (content : string)
| Dumped (data : output)
| Torn (data : output) (written : nat).

(** How the operating system treats [open] and the write of the dump. *)
Inductive io_fault : Type :=
| NoFault
| OpenFails (e : exn)
| WriteFails (e : exn) (written : nat).

Record world : Type := {
  w_argv : list string;
  w_provider : string -> result features;
  w_file : file;
  w_fault : io_fault
}.

Record run : Type := {
  r_stdout : list line;
  r_exit : Z;
  r_file : file
}.

Definition output_file : string := "music_timeline.json"%string.

Definition main (w : world) : run :=
  match w_argv w with
  | _ :: filepath :: _ =>
      match analyze_music (w_provider w) filepath with
      | Raise e =>
          {| r_stdout := [ErrorLine e]; r_exit := 1; r_file := w_file w |}
      | Ok data =>
          match w_fault w with
          | OpenFails e =>
              {| r_stdout := [ErrorLine e]; r_exit := 1;
                 r_file := w_file w |}
          | WriteFails e written =>
              {| r_stdout := [ErrorLine e]; r_exit := 1;
                 r_file := Torn data written |}
          | NoFault =>
              {| r_stdout := [SuccessLine output_file;
                              DurationLine (o_duration data);
                              TempoLine (o_tempo data);
                              BeatsLine (o_beatCount data);
                              EntriesLine (length (o_timeline data))];
                 r_exit := 0;
                 r_file := Dumped data |}
          end
      end
  | _ =>
      {| r_stdout := [UsageLine; ExampleLine]; r_exit := 1;
         r_file := w_file w |}
  end.

(** ** Debounced scans

    Both detectors walk the frames in order, test a frame against the curve
    and against the time of the last flagged frame, and on success record the
    frame and move that time.  [flagged] is this walk on frame indices. *)

Section Debounce.
Variable time : nat -> Q.
Variable cand : nat -> bool.
Variable gap : Q.

(** The frames of [l] that are flagged when the walk starts with [last] as
    the time of the last flagged frame. *)
Fixpoint flagged (last : Q) (l : list nat) : list nat :=
  match l with
  | [] => []
  | i :: l' =>
      if cand i && Qltb gap (time i - last)
      then i :: flagged (time i) l'
      else flagged last l'
  end.

(** The time of the last flagged frame once [l] has been walked. *)
Fixpoint last_after (last : Q) (l : list nat) : Q :=
  match l with
  | [] => last
  | i :: l' =>
      if cand i && Qltb gap (time i - last)
      then last_after (time i) l'
      else last_after last l'
  end.
End Debounce.




(** The frame-level conditions of the two detectors, without the gap test. *)
Definition drop_candidate (bass_energy : list Q) (i : nat) : bool :=
  (5 <? i)%nat
  && Qltb (bass_threshold bass_energy) (nth i bass_energy 0)
  && Qltb (np_mean (slice bass_energy (i - 5) i) * 1.5) (nth i bass_energy 0).

Definition big_drop_candidate (bass_energy : list Q) (i : nat) : bool :=
  Qltb (bass_before bass_energy i) 0.15
  && Qltb 0.3 (bass_after bass_energy i)
  && Qltb (bass_before bass_energy i * 3) (bass_after bass_energy i).

(** The frames at which the two loops flag, for the frame times of [sr]. *)
Definition drop_frames (sr : positive) (bass_energy : list Q) : list nat :=
  flagged (frames_to_time sr) (drop_candidate bass_energy) min_drop_gap
          (- min_drop_gap) (seq 1 (length bass_energy - 1)).

Definition big_drop_frames (sr : positive) (bass_energy : list Q) : list nat :=
  flagged (frames_to_time sr) (big_drop_candidate bass_energy)
          min_big_drop_gap (- min_big_drop_gap)
          (seq window_before
               (length bass_energy - window_after - window_before)).

(** ** Vocabulary of the claims *)

(** [i] is the index of the first minimum of [a]. *)
Definition first_minimum (a : list Q) (i : nat) : Prop :=
  (i < length a)%nat
  /\ (forall j, (j < length a)%nat -> nth i a 0 <= nth j a 0)
  /\ (forall j, (j < i)%nat -> nth i a 0 < nth j a 0).

(** [i] is the frame of [times] closest to [t], the first one on a tie. *)
Definition nearest_frame (times : list Q) (t : Q) (i : nat) : Prop :=
  first_minimum (map (fun x => Qabs (x - t)) times) i.

(** [v] is some value rounded to [n] decimals. *)
Definition rounded_to (n : nat) (v : Q) : Prop :=
  exists x, v = py_round n x.

Definition np_rounded_to (n : nat) (v : npfloat) : Prop :=
  exists x, v = np_round n x.


(** The tick of timeline entry [k]. *)
Definition tick (k : nat) : Q := inject_Z (Z.of_nat k) * sample_interval.

(** ** Sample inputs *)

Definition quiet_frame (b : Q) : band_frame :=
  {| bf_bass := b; bf_mid := 0; bf_high := b / 2 |}.

(** 120 frames of silence with two bass hits, at frames 10 and 100. *)
Definition two_hits : features :=
  {| ft_duration := 2.75;
     ft_sr := default_sr;
     ft_tempo := TempoArray [120.04; 3];
     ft_beat_times := [1; 2.02];
     ft_onset_env := [0; 1; 4; 2];
     ft_bands :=
       map (fun i => quiet_frame (if (i =? 10)%nat || (i =? 100)%nat
                                  then 3 else 0))
           (seq 0 120) |}.

(** 560 frames: silence with two loud passages, from frame 40 and from
    frame 480. *)
Definition two_entries : features :=
  {| ft_duration := 13;
     ft_sr := default_sr;
     ft_tempo := TempoScalar 99.96;
     ft_beat_times := [1; 2.02];
     ft_onset_env := [0; 1; 4; 2];
     ft_bands :=
       map (fun i => quiet_frame
                       (if ((40 <=? i) && (i <? 100))%nat
                           || ((480 <=? i) && (i <? 540))%nat
                        then 1 else 0))
           (seq 0 560) |}.

(** 70 frames: the quiet floor of 0.05, loud from frame 40 on; one beat at
    1.000 s. *)
Definition one_entry : features :=
  {| ft_duration := 1.6254;
     ft_sr := default_sr;
     ft_tempo := TempoScalar 128;
     ft_beat_times := [1];
     ft_onset_env := map (fun i => inject_Z (Z.of_nat (i mod 7))) (seq 0 70);
     ft_bands :=
       map (fun i => quiet_frame (if (40 <=? i)%nat then 1 else 0.05))
           (seq 0 70) |}.

Definition no_curves : curves :=
  {| cv_onset_env := []; cv_onset_times := []; cv_bass_energy := [];
     cv_mid_energy := []; cv_high_energy := []; cv_spec_times := [];
     cv_beat_times := []; cv_drops := [] |}.

Definition blank_entry : entry := timeline_entry no_curves 0.

(** The curve of a normalisation that is known to succeed. *)
Definition curve_of {A : Type} (r : result (list A)) : list A :=
  match r with
  | Ok c => c
  | Raise _ => []
  end.

(** A silent clip: three frames, everything zero. *)
Definition silence : features :=
  {| ft_duration := 0.07;
     ft_sr := default_sr;
     ft_tempo := TempoArray [];
     ft_beat_times := [];
     ft_onset_env := [0; 0; 0];
     ft_bands := [quiet_frame 0; quiet_frame 0; quiet_frame 0] |}.

(** A librosa that cannot read the file. *)
Definition unreadable (filepath : string) : result features :=
  Raise (ProviderError filepath).

Definition failing_world : world :=
  {| w_argv := ["analyze_music.py"; "missing.mp3"]%string;
     w_provider := unreadable;
     w_file := Stale "previous run"%string;
     w_fault := NoFault |}.

Definition bare_world : world :=
  {| w_argv := ["analyze_music.py"]%string;
     w_provider := unreadable;
     w_file := NoFile;
     w_fault := NoFault |}.

(** 1200 frames on the grid of 22050 Hz, as doubles, with curves that
    change from frame to frame; one beat at 0.125 s and one drop recorded
    as 0.65 s. *)
Definition grid_curves : curves :=
  {| cv_onset_env :=
       map (fun i => Finite (inject_Z (Z.of_nat (i mod 5)) / 4)) (seq 0 1200);
     cv_onset_times := frame_times64 default_sr 1200;
     cv_bass_energy :=
       map (fun i => inject_Z (Z.of_nat (i mod 8)) / 7) (seq 0 1200);
     cv_mid_energy :=
       map (fun i => inject_Z (Z.of_nat (i mod 3)) / 2) (seq 0 1200);
     cv_high_energy :=
       map (fun i => inject_Z (Z.of_nat (i mod 2))) (seq 0 1200);
     cv_spec_times := frame_times64 default_sr 1200;
     cv_beat_times := [0.125];
     cv_drops := [0.65] |}.


(** 70 silent frames. *)
Definition long_silence : features :=
  {| ft_duration := 1.6254;
     ft_sr := default_sr;
     ft_tempo := TempoScalar 0;
     ft_beat_times := [];
     ft_onset_env := map (fun _ => 0) (seq 0 70);
     ft_bands := map (fun _ => quiet_frame 0) (seq 0 70) |}.

Definition no_output : output :=
  {| o_duration := 0; o_tempo := 0; o_beatCount := 0; o_beats := [];
     o_drops := []; o_bigDrops := []; o_timeline := [] |}.

(** The result of a run that is known to succeed. *)
Definition result_of (f : features) : output :=
  match analyze_features f with
  | Ok out => out
  | Raise _ => no_output
  end.

(** * Properties *)

(** ** Comparisons and rounding *)

Lemma Qltb_lt (x y : Q) : Qltb x y = true <-> x < y.
Proof.
  unfold Qltb. rewrite negb_true_iff.
  split; intro H.
  - apply Qnot_le_lt. intro Hle. apply Qle_bool_iff in Hle. congruence.
  - destruct (Qle_bool y x) eqn:E; [|reflexivity].
    apply Qle_bool_iff in E. exfalso. apply (Qlt_not_le _ _ H E).
Qed.

Lemma Qltb_ge (x y : Q) : Qltb x y = false <-> y <= x.
Proof.
  unfold Qltb. rewrite negb_false_iff. apply Qle_bool_iff.
Qed.

Lemma Qltb_comp (x x' y y' : Q) : x == x' -> y == y' -> Qltb x y = Qltb x' y'.
Proof.
  intros Hx Hy.
  destruct (Qltb x y) eqn:E1, (Qltb x' y') eqn:E2; try reflexivity.
  - apply Qltb_lt in E1. apply Qltb_ge in E2. rewrite Hx, Hy in E1.
    exfalso. apply (Qlt_not_le _ _ E1 E2).
  - apply Qltb_ge in E1. apply Qltb_lt in E2. rewrite Hx, Hy in E1.
    exfalso. apply (Qlt_not_le _ _ E2 E1).
Qed.

Ltac qltb :=
  repeat match goal with
         | H : Qltb _ _ = true |- _ => apply Qltb_lt in H
         | H : Qltb _ _ = false |- _ => apply Qltb_ge in H
         | H : Qle_bool _ _ = true |- _ => apply Qle_bool_iff in H
         end.

Lemma round_half_even_floor (x : Q) :
  (Qfloor x <= round_half_even x <= Qfloor x + 1)%Z.
Proof.
  unfold round_half_even.
  destruct (Qltb _ _); [lia|].
  destruct (Qltb _ _); [lia|].
  destruct (Z.even _); lia.
Qed.

(** Rounding moves a value by at most one half. *)
Lemma round_half_even_near (x : Q) :
  x - (1 # 2) <= inject_Z (round_half_even x) <= x + (1 # 2).
Proof.
  pose proof (Qfloor_le x) as Hlo.
  pose proof (Qlt_floor x) as Hhi.
  rewrite inject_Z_plus in Hhi. change (inject_Z 1) with 1 in Hhi.
  unfold round_half_even.
  destruct (Qltb (x - inject_Z (Qfloor x)) (1 # 2)) eqn:E1.
  - qltb. split; lra.
  - destruct (Qltb (1 # 2) (x - inject_Z (Qfloor x))) eqn:E2.
    + qltb. rewrite inject_Z_plus. change (inject_Z 1) with 1. split; lra.
    + qltb. destruct (Z.even (Qfloor x));
        [|rewrite inject_Z_plus; change (inject_Z 1) with 1]; split; lra.
Qed.

(** An integer is its own rounding. *)
Lemma round_half_even_Z (x : Q) (z : Z) :
  x == inject_Z z -> round_half_even x = z.
Proof.
  intro Hx.
  assert (Hf : Qfloor x = z) by (rewrite Hx; apply Qfloor_Z).
  unfold round_half_even. rewrite Hf.
  assert (E : Qltb (x - inject_Z z) (1 # 2) = true) by (apply Qltb_lt; lra).
  rewrite E. reflexivity.
Qed.

(** Whatever lies at or above an integer rounds to at least that integer. *)
Lemma round_half_even_lower (x : Q) (z : Z) :
  inject_Z z <= x -> (z <= round_half_even x)%Z.
Proof.
  intro H.
  apply Qfloor_resp_le in H. rewrite Qfloor_Z in H.
  pose proof (round_half_even_floor x). lia.
Qed.

(** Whatever lies at or below an integer rounds to at most that integer. *)
Lemma round_half_even_upper (x : Q) (z : Z) :
  x <= inject_Z z -> (round_half_even x <= z)%Z.
Proof.
  intro H.
  pose proof (Qfloor_le x) as Hf.
  assert (Hfz : (Qfloor x <= z)%Z).
  { apply Qfloor_resp_le in H. rewrite Qfloor_Z in H. exact H. }
  destruct (Z.eq_dec (Qfloor x) z) as [E|E].
  - unfold round_half_even. rewrite E in *.
    assert (E1 : Qltb (x - inject_Z z) (1 # 2) = true)
      by (apply Qltb_lt; lra).
    rewrite E1. lia.
  - pose proof (round_half_even_floor x). lia.
Qed.

Lemma pow10_pos (n : nat) : 0 < inject_Z (pow10 n).
Proof.
  unfold pow10. change 0 with (inject_Z 0). rewrite <- Zlt_Qlt.
  apply Z.pow_pos_nonneg; lia.
Qed.

(** [round(x, 3)] is within half a thousandth of [x]. *)
Lemma py_round3_near (x : Q) :
  x - (1 # 2000) <= py_round 3 x <= x + (1 # 2000).
Proof.
  unfold py_round.
  pose proof (round_half_even_near (x * inject_Z (pow10 3))) as H.
  change (inject_Z (pow10 3)) with 1000 in *.
  set (r := inject_Z (round_half_even (x * 1000))) in *.
  split.
  - apply Qle_shift_div_l; lra.
  - apply Qle_shift_div_r; lra.
Qed.

(** A value with at most [n] decimals is left as it is. *)
Lemma py_round_exact (n : nat) (x : Q) (z : Z) :
  x * inject_Z (pow10 n) == inject_Z z -> py_round n x == x.
Proof.
  intro H. unfold py_round.
  rewrite (round_half_even_Z _ _ H).
  pose proof (pow10_pos n) as Hp.
  rewrite <- H. field. lra.
Qed.

(** Rounding to [n] decimals never goes below a bound that has at most [n]
    decimals itself. *)
Lemma py_round_lower (n : nat) (x : Q) (z : Z) :
  inject_Z z / inject_Z (pow10 n) <= x ->
  inject_Z z / inject_Z (pow10 n) <= py_round n x.
Proof.
  intro H. unfold py_round.
  pose proof (pow10_pos n) as Hp.
  assert (Hz : inject_Z z <= x * inject_Z (pow10 n)).
  { setoid_replace (inject_Z z)
      with (inject_Z z / inject_Z (pow10 n) * inject_Z (pow10 n))
      by (field; lra).
    apply Qmult_le_compat_r; [exact H | lra]. }
  apply round_half_even_lower in Hz.
  unfold Qdiv. apply Qmult_le_compat_r.
  - rewrite <- Zle_Qle. exact Hz.
  - apply Qinv_le_0_compat. lra.
Qed.

(** ** Rounding to the nearest double *)

Lemma pow2_pos (e : Z) : 0 < 2 ^ e.
Proof. apply Qpower_0_lt. reflexivity. Qed.

Lemma pow2_succ (e : Z) : 2 ^ (e + 1) == 2 * 2 ^ e.
Proof. rewrite Qpower_plus by discriminate. change (2 ^ 1) with 2. ring. Qed.

Lemma pow2_Z (n : Z) : (0 <= n)%Z -> inject_Z (2 ^ n) == 2 ^ n.
Proof. intro H. apply (Zpower_Qpower 2 n H). Qed.

(** [ilog2 x] is the binary exponent of a positive [x]. *)
Lemma ilog2_spec (x : Q) :
  0 < x -> 2 ^ ilog2 x <= x < 2 ^ (ilog2 x + 1).
Proof.
  intro Hx. destruct x as [n d].
  assert (Hn : (0 < n)%Z).
  { unfold Qlt in Hx. simpl in Hx. lia. }
  unfold ilog2. cbn [Qnum Qden].
  set (ln := Z.log2 n). set (ld := Z.log2 (Zpos d)).
  pose proof (Z.log2_spec n Hn) as [Hn1 Hn2]. fold ln in Hn1, Hn2.
  pose proof (Z.log2_spec (Zpos d) ltac:(lia)) as [Hd1 Hd2].
  fold ld in Hd1, Hd2.
  assert (Hln : (0 <= ln)%Z) by apply Z.log2_nonneg.
  assert (Hld : (0 <= ld)%Z) by apply Z.log2_nonneg.
  rewrite Zle_Qle, pow2_Z in Hn1, Hd1 by assumption.
  rewrite Zlt_Qlt, pow2_Z in Hn2, Hd2 by lia.
  unfold Z.succ in Hn2, Hd2. rewrite pow2_succ in Hn2, Hd2.
  pose proof (pow2_pos ln) as HA. pose proof (pow2_pos ld) as HB.
  set (A := 2 ^ ln) in *. set (B := 2 ^ ld) in *.
  assert (Hx' : n # d == inject_Z n / inject_Z (Zpos d)) by apply Qmake_Qdiv.
  set (N := inject_Z n) in *. set (D := inject_Z (Zpos d)) in *.
  assert (HD : 0 < D) by reflexivity.
  assert (Hc : 2 ^ (ln - ld) == A / B)
    by (apply Qpower_minus; discriminate).
  assert (Hc1 : 2 ^ (ln - ld - 1 + 1) == A / B)
    by (replace (ln - ld - 1 + 1)%Z with (ln - ld)%Z by lia; exact Hc).
  assert (Hc0 : 2 ^ (ln - ld - 1) == A / B / 2).
  { pose proof (pow2_succ (ln - ld - 1)) as H. rewrite Hc1 in H.
    rewrite H. field. }
  destruct (Qle_bool (2 ^ (ln - ld)) (n # d)) eqn:E.
  - apply Qle_bool_iff in E. split; [exact E|].
    rewrite pow2_succ, Hc, Hx'.
    apply Qlt_shift_div_r; [exact HD|].
    setoid_replace (2 * (A / B) * D) with (2 * A * D / B) by (field; lra).
    apply Qlt_shift_div_l; [exact HB|]. nra.
  - assert (E' : n # d < 2 ^ (ln - ld)).
    { apply Qnot_le_lt. intro H. apply Qle_bool_iff in H. congruence. }
    split.
    + rewrite Hc0, Hx'.
      apply Qle_shift_div_l; [exact HD|].
      setoid_replace (A / B / 2 * D) with (A * D / (2 * B)) by (field; lra).
      apply Qle_shift_div_r; [lra|]. nra.
    + rewrite Hc1. rewrite <- Hc. exact E'.
Qed.

Lemma ilog2_mono (x y : Q) : 0 < x -> x <= y -> (ilog2 x <= ilog2 y)%Z.
Proof.
  intros Hx Hxy.
  destruct (ilog2_spec x Hx) as [Hx1 _].
  destruct (ilog2_spec y ltac:(lra)) as [_ Hy2].
  assert (H : 2 ^ ilog2 x < 2 ^ (ilog2 y + 1)) by lra.
  apply Qpower_lt_compat_l_inv in H; [lia | reflexivity].
Qed.

Lemma round_half_even_mono (x y : Q) :
  x <= y -> (round_half_even x <= round_half_even y)%Z.
Proof.
  intro H.
  pose proof (Qfloor_resp_le _ _ H) as Hf.
  destruct (Z.eq_dec (Qfloor x) (Qfloor y)) as [E|E].
  - unfold round_half_even. rewrite <- E.
    destruct (Qltb (x - inject_Z (Qfloor x)) (1 # 2)) eqn:E1.
    + destruct (Qltb (y - inject_Z (Qfloor x)) (1 # 2)); [lia|].
      destruct (Qltb (1 # 2) (y - inject_Z (Qfloor x))); [lia|].
      destruct (Z.even (Qfloor x)); lia.
    + assert (E1y : Qltb (y - inject_Z (Qfloor x)) (1 # 2) = false)
        by (qltb; apply Qltb_ge; lra).
      rewrite E1y.
      destruct (Qltb (1 # 2) (x - inject_Z (Qfloor x))) eqn:E2.
      * assert (E2y : Qltb (1 # 2) (y - inject_Z (Qfloor x)) = true)
          by (qltb; apply Qltb_lt; lra).
        rewrite E2y. lia.
      * destruct (Qltb (1 # 2) (y - inject_Z (Qfloor x)));
          destruct (Z.even (Qfloor x)); lia.
  - pose proof (round_half_even_floor x). pose proof (round_half_even_floor y).
    lia.
Qed.


Lemma Qabs_pos_eq (x : Q) : 0 < x -> Qabs x = x.
Proof.
  destruct x as [[|n|n] d]; intro H; try reflexivity; discriminate H.
Qed.

Lemma Qabs_neg_eq (x : Q) : x < 0 -> Qabs x = - x.
Proof.
  destruct x as [[|n|n] d]; intro H; try reflexivity; discriminate H.
Qed.

Lemma fl_zero (prec : Z) (x : Q) : x == 0 -> fl prec x = 0.
Proof.
  intro H. unfold fl.
  assert (E : Qeq_bool x 0 = true) by (apply Qeq_bool_iff; exact H).
  rewrite E. reflexivity.
Qed.

Lemma fl_pos_eq (prec : Z) (x : Q) :
  0 < x ->
  fl prec x
  = inject_Z (round_half_even (x / 2 ^ (ilog2 x - (prec - 1))))
    * 2 ^ (ilog2 x - (prec - 1)).
Proof.
  intro H. unfold fl.
  assert (E0 : Qeq_bool x 0 = false).
  { destruct (Qeq_bool x 0) eqn:E; [|reflexivity].
    apply Qeq_bool_iff in E. lra. }
  assert (E1 : Qltb x 0 = false) by (apply Qltb_ge; lra).
  rewrite E0, E1, (Qabs_pos_eq x H). reflexivity.
Qed.

Lemma fl_neg_eq (prec : Z) (x : Q) : x < 0 -> fl prec x = - fl prec (- x).
Proof.
  intro H.
  assert (Hpos : 0 < - x) by lra.
  rewrite (fl_pos_eq prec (- x) Hpos). unfold fl.
  assert (E0 : Qeq_bool x 0 = false).
  { destruct (Qeq_bool x 0) eqn:E; [|reflexivity].
    apply Qeq_bool_iff in E. lra. }
  assert (E1 : Qltb x 0 = true) by (apply Qltb_lt; exact H).
  rewrite E0, E1, (Qabs_neg_eq x H). reflexivity.
Qed.

Section Rounding.
Variable prec : Z.
Hypothesis prec_pos : (1 <= prec)%Z.

(** A positive value in the binade of exponent [e] rounds to a value of
    the closed binade [[2^e, 2^(e+1)]]. *)
Lemma fl_binade (x : Q) :
  0 < x -> 2 ^ ilog2 x <= fl prec x <= 2 ^ (ilog2 x + 1).
Proof.
  intro Hx. rewrite (fl_pos_eq prec x Hx).
  destruct (ilog2_spec x Hx) as [Hlo Hhi].
  set (e := ilog2 x) in *.
  set (u := 2 ^ (e - (prec - 1))).
  assert (Hu : 0 < u) by apply pow2_pos.
  assert (He : 2 ^ e == inject_Z (2 ^ (prec - 1)) * u).
  { rewrite pow2_Z by lia. unfold u.
    rewrite <- Qpower_plus by discriminate.
    replace (prec - 1 + (e - (prec - 1)))%Z with e by lia. reflexivity. }
  assert (He1 : 2 ^ (e + 1) == inject_Z (2 ^ prec) * u).
  { rewrite pow2_Z by lia. unfold u.
    rewrite <- Qpower_plus by discriminate.
    replace (prec + (e - (prec - 1)))%Z with (e + 1)%Z by lia. reflexivity. }
  split.
  - rewrite He. apply Qmult_le_compat_r; [|lra].
    rewrite <- Zle_Qle. apply round_half_even_lower.
    apply Qle_shift_div_l; [exact Hu|]. rewrite <- He. exact Hlo.
  - rewrite He1. apply Qmult_le_compat_r; [|lra].
    rewrite <- Zle_Qle. apply round_half_even_upper.
    apply Qle_shift_div_r; [exact Hu|]. rewrite <- He1. lra.
Qed.

Lemma fl_pos (x : Q) : 0 < x -> 0 < fl prec x.
Proof.
  intro Hx. destruct (fl_binade x Hx) as [H _].
  pose proof (pow2_pos (ilog2 x)). lra.
Qed.

Lemma fl_mono_pos (x y : Q) : 0 < x -> x <= y -> fl prec x <= fl prec y.
Proof.
  intros Hx Hxy.
  assert (Hy : 0 < y) by lra.
  pose proof (ilog2_mono x y Hx Hxy) as He.
  destruct (Z.eq_dec (ilog2 x) (ilog2 y)) as [E|E].
  - rewrite (fl_pos_eq prec x Hx), (fl_pos_eq prec y Hy), E.
    set (u := 2 ^ (ilog2 y - (prec - 1))).
    assert (Hu : 0 < u) by apply pow2_pos.
    apply Qmult_le_compat_r; [|lra].
    rewrite <- Zle_Qle. apply round_half_even_mono.
    unfold Qdiv. apply Qmult_le_compat_r; [exact Hxy|].
    apply Qinv_le_0_compat. lra.
  - destruct (fl_binade x Hx) as [_ Hxu].
    destruct (fl_binade y Hy) as [Hyl _].
    assert (Hpow : 2 ^ (ilog2 x + 1) <= 2 ^ ilog2 y)
      by (apply Qpower_le_compat_l; [lia | discriminate]).
    lra.
Qed.

(** Rounding to nearest is monotone. *)
Lemma fl_mono (x y : Q) : x <= y -> fl prec x <= fl prec y.
Proof.
  intro Hxy.
  destruct (Qlt_le_dec 0 x) as [Hx|Hx].
  - apply fl_mono_pos; assumption.
  - destruct (Qlt_le_dec 0 y) as [Hy|Hy].
    + pose proof (fl_pos y Hy).
      destruct (Qlt_le_dec x 0) as [Hx'|Hx'].
      * rewrite (fl_neg_eq prec x Hx').
        pose proof (fl_pos (- x) ltac:(lra)). lra.
      * rewrite (fl_zero prec x) by lra. lra.
    + destruct (Qlt_le_dec y 0) as [Hy'|Hy'].
      * rewrite (fl_neg_eq prec x ltac:(lra)), (fl_neg_eq prec y Hy').
        pose proof (fl_mono_pos (- y) (- x) ltac:(lra) ltac:(lra)). lra.
      * rewrite (fl_zero prec y) by lra.
        destruct (Qlt_le_dec x 0) as [Hx'|Hx'].
        -- rewrite (fl_neg_eq prec x Hx').
           pose proof (fl_pos (- x) ltac:(lra)). lra.
        -- rewrite (fl_zero prec x) by lra. lra.
Qed.

Lemma fl_nonneg (x : Q) : 0 <= x -> 0 <= fl prec x.
Proof.
  intro H. rewrite <- (fl_zero prec 0) by reflexivity. apply fl_mono, H.
Qed.
End Rounding.

(** ** Frame times *)

Lemma frames_to_time_diff (sr : positive) (i j : nat) :
  frames_to_time sr j - frames_to_time sr i
  == (inject_Z (Z.of_nat j) - inject_Z (Z.of_nat i)) * (512 # sr).
Proof.
  unfold frames_to_time, hop_length.
  rewrite !inject_Z_mult. change (inject_Z 512) with 512.
  rewrite (Qmake_Qdiv 512 sr). change (inject_Z 512) with 512.
  assert (0 < inject_Z (Zpos sr)) by reflexivity.
  field. lra.
Qed.

Lemma frame_period_pos (sr : positive) : 0 < 512 # sr.
Proof. reflexivity. Qed.

Lemma frames_to_time_lt (sr : positive) (i j : nat) :
  (i < j)%nat -> frames_to_time sr i < frames_to_time sr j.
Proof.
  intro Hij.
  pose proof (frames_to_time_diff sr i j) as Hd.
  pose proof (frame_period_pos sr) as Hp.
  assert (Hz : 0 < inject_Z (Z.of_nat j) - inject_Z (Z.of_nat i)).
  { assert (inject_Z (Z.of_nat i) < inject_Z (Z.of_nat j))
      by (rewrite <- Zlt_Qlt; lia).
    lra. }
  pose proof (Qmult_lt_0_compat _ _ Hz Hp). lra.
Qed.

Lemma frames_to_time_0 (sr : positive) : frames_to_time sr 0 == 0.
Proof. reflexivity. Qed.


Lemma frame_times_length (sr : positive) (n : nat) :
  length (frame_times sr n) = n.
Proof. unfold frame_times. rewrite length_map, length_seq. reflexivity. Qed.

Lemma frame_times_nth (sr : positive) (n i : nat) :
  (i < n)%nat -> nth i (frame_times sr n) 0 = frames_to_time sr i.
Proof.
  intro H. unfold frame_times.
  rewrite (nth_indep _ 0 (frames_to_time sr 0))
    by (rewrite length_map, length_seq; exact H).
  rewrite (map_nth (frames_to_time sr)). rewrite seq_nth by exact H.
  reflexivity.
Qed.

(** ** Slices read by the two detectors *)

Lemma slice_length (a : list Q) (lo hi : nat) :
  (hi <= length a)%nat -> length (slice a lo hi) = (hi - lo)%nat.
Proof.
  intro H. unfold slice. rewrite length_firstn, length_skipn. lia.
Qed.

Lemma slice_nth (a : list Q) (lo hi k : nat) :
  (k < hi - lo)%nat -> nth k (slice a lo hi) 0 = nth (lo + k) a 0.
Proof.
  intro H. unfold slice.
  rewrite nth_firstn.
  destruct (k <? hi - lo)%nat eqn:E; [|apply Nat.ltb_ge in E; lia].
  apply nth_skipn.
Qed.

(** ** Debounced scans *)

Section DebounceFacts.
Variable time : nat -> Q.
Variable cand : nat -> bool.
Variable gap : Q.

#[local] Abbreviation flagged := (flagged time cand gap).
#[local] Abbreviation last_after := (last_after time cand gap).


Lemma flagged_In (last : Q) (l : list nat) (i : nat) :
  In i (flagged last l) -> In i l /\ cand i = true.
Proof.
  revert last. induction l as [|k l IH]; intro last; simpl.
  - intros [].
  - destruct (cand k) eqn:Ek; simpl.
    + destruct (Qltb gap (time k - last)).
      * intros [->|H]; [auto|]. destruct (IH _ H); auto.
      * intro H. destruct (IH _ H); auto.
    + intro H. destruct (IH _ H); auto.
Qed.


(** A loop written with the same test computes [flagged]. *)
Lemma fold_left_flagged {A : Type} (mk : nat -> A)
    (step : list A * Q -> nat -> list A * Q) :
  (forall st i,
      step st i = if cand i && Qltb gap (time i - snd st)
                  then (fst st ++ [mk i], time i) else st) ->
  forall l acc last,
    fold_left step l (acc, last)
    = (acc ++ map mk (flagged last l), last_after last l).
Proof.
  intros Hstep l. induction l as [|i l IH]; intros acc last; simpl.
  - rewrite app_nil_r. reflexivity.
  - rewrite Hstep. simpl.
    destruct (cand i && Qltb gap (time i - last)).
    + rewrite IH. simpl. rewrite <- app_assoc. reflexivity.
    + apply IH.
Qed.






Lemma flagged_head (last : Q) (l : list nat) (j : nat) (F : list nat) :
  flagged last l = j :: F ->
  gap < time j - last /\ exists l', F = flagged (time j) l'.
Proof.
  revert last. induction l as [|i l IH]; intro last; simpl.
  - discriminate.
  - destruct (cand i) eqn:Ec; simpl.
    + destruct (Qltb gap (time i - last)) eqn:Eg.
      * intro H. injection H as <- <-. split.
        -- apply Qltb_lt. exact Eg.
        -- exists l. reflexivity.
      * apply IH.
    + apply IH.
Qed.

(** Two flagged frames in a row are more than [gap] apart. *)
Lemma flagged_consecutive (last : Q) (l : list nat) (k : nat) :
  (S k < length (flagged last l))%nat ->
  gap < time (nth (S k) (flagged last l) 0%nat)
        - time (nth k (flagged last l) 0%nat).
Proof.
  revert last l. induction k as [|k IH]; intros last l Hlen.
  - destruct (flagged last l) as [|j F] eqn:E; [simpl in Hlen; lia|].
    apply flagged_head in E. destruct E as [_ [l' ->]].
    destruct (flagged (time j) l') as [|j' F'] eqn:E'; [simpl in Hlen; lia|].
    apply flagged_head in E'. simpl. tauto.
  - destruct (flagged last l) as [|j F] eqn:E; [simpl in Hlen; lia|].
    apply flagged_head in E. destruct E as [_ [l' ->]].
    simpl in Hlen.
    change (nth (S (S k)) (j :: flagged (time j) l') 0%nat)
      with (nth (S k) (flagged (time j) l') 0%nat).
    change (nth (S k) (j :: flagged (time j) l') 0%nat)
      with (nth k (flagged (time j) l') 0%nat).
    apply IH. lia.
Qed.


End DebounceFacts.

Lemma flagged_ext (time time' : nat -> Q) (cand cand' : nat -> bool)
    (gap last : Q) (l : list nat) :
  (forall i, In i l -> time i = time' i /\ cand i = cand' i) ->
  flagged time cand gap last l = flagged time' cand' gap last l
  /\ last_after time cand gap last l = last_after time' cand' gap last l.
Proof.
  revert last. induction l as [|i l IH]; intros last H; simpl.
  - split; reflexivity.
  - destruct (H i (or_introl eq_refl)) as [<- <-].
    assert (H' : forall k, In k l -> time k = time' k /\ cand k = cand' k)
      by (intros k Hk; apply H; right; exact Hk).
    destruct (cand i && Qltb gap (time i - last)).
    + destruct (IH (time i) H') as [-> ->]. split; reflexivity.
    + apply IH, H'.
Qed.


(** ** The transient-drop detector *)

Lemma drop_step_test (bass_energy spec_times : list Q) (st : list Q * Q)
    (i : nat) :
  drop_step bass_energy spec_times (bass_threshold bass_energy) st i
  = if drop_candidate bass_energy i
       && Qltb min_drop_gap (nth i spec_times 0 - snd st)
    then (fst st ++ [py_round 3 (nth i spec_times 0)], nth i spec_times 0)
    else st.
Proof.
  unfold drop_step, drop_candidate.
  destruct (5 <? i)%nat; reflexivity.
Qed.

(** The loop records the rounded times of the frames of [drop_frames]. *)
Lemma detect_drops_frames (sr : positive) (bass_energy : list Q) :
  detect_drops bass_energy (frame_times sr (length bass_energy))
  = map (fun i => py_round 3 (frames_to_time sr i))
        (drop_frames sr bass_energy).
Proof.
  unfold detect_drops, drops_loop, drop_frames.
  set (times := frame_times sr (length bass_energy)).
  rewrite (fold_left_flagged (fun i => nth i times 0)
             (drop_candidate bass_energy) min_drop_gap
             (fun i => py_round 3 (nth i times 0))
             _ (drop_step_test bass_energy times)).
  simpl.
  assert (Hext : forall i, In i (seq 1 (length bass_energy - 1)) ->
                           nth i times 0 = frames_to_time sr i
                           /\ drop_candidate bass_energy i
                              = drop_candidate bass_energy i).
  { intros i Hi. apply in_seq in Hi. split; [|reflexivity].
    apply frame_times_nth. lia. }
  destruct (flagged_ext _ _ _ _ min_drop_gap (- min_drop_gap) _ Hext)
    as [-> _].
  apply map_ext_in. intros i Hi.
  apply flagged_In in Hi. destruct Hi as [Hi _]. apply in_seq in Hi.
  subst times. rewrite frame_times_nth by lia. reflexivity.
Qed.

Lemma drop_candidate_spec (bass_energy : list Q) (i : nat) :
  drop_candidate bass_energy i = true
  <-> (5 < i)%nat
      /\ bass_threshold bass_energy < nth i bass_energy 0
      /\ np_mean (slice bass_energy (i - 5) i) * 1.5 < nth i bass_energy 0.
Proof.
  unfold drop_candidate.
  rewrite !andb_true_iff, Nat.ltb_lt, !Qltb_lt. tauto.
Qed.

(** The five frames the recent average is taken over are the five frames
    just before [i]. *)
Lemma recent_window (bass_energy : list Q) (i : nat) :
  (5 < i < length bass_energy)%nat ->
  length (slice bass_energy (i - 5) i) = 5%nat
  /\ forall k, (k < 5)%nat ->
               nth k (slice bass_energy (i - 5) i) 0
               = nth (i - 5 + k) bass_energy 0.
Proof.
  intro Hi. split.
  - rewrite slice_length by lia. lia.
  - intros k Hk. apply slice_nth. lia.
Qed.




(** ** The big-drop detector *)

Lemma big_drop_step_test (duration : Q) (bass_energy spec_times : list Q)
    (st : list big_drop * Q) (i : nat) :
  big_drop_step duration bass_energy spec_times st i
  = if big_drop_candidate bass_energy i
       && Qltb min_big_drop_gap (nth i spec_times 0 - snd st)
    then (fst st ++ [big_drop_record duration (nth i spec_times 0)
                       (bass_before bass_energy i)
                       (bass_after bass_energy i)],
          nth i spec_times 0)
    else st.
Proof.
  unfold big_drop_step, big_drop_candidate.
  destruct (Qltb (bass_before bass_energy i) 0.15
            && Qltb 0.3 (bass_after bass_energy i)
            && Qltb (bass_before bass_energy i * 3)
                    (bass_after bass_energy i)); reflexivity.
Qed.

Lemma big_drop_frames_range (sr : positive) (bass_energy : list Q) (i : nat) :
  In i (big_drop_frames sr bass_energy) ->
  (window_before <= i /\ i + window_after < length bass_energy)%nat.
Proof.
  intro Hi. apply flagged_In in Hi. destruct Hi as [Hi _].
  apply in_seq in Hi. unfold window_before, window_after in *. lia.
Qed.

(** The loop records one dictionary per frame of [big_drop_frames]. *)
Lemma detect_big_drops_frames (sr : positive) (duration : Q)
    (bass_energy : list Q) :
  detect_big_drops duration bass_energy
                   (frame_times sr (length bass_energy))
  = map (fun i => big_drop_record duration (frames_to_time sr i)
                    (bass_before bass_energy i) (bass_after bass_energy i))
        (big_drop_frames sr bass_energy).
Proof.
  unfold detect_big_drops, big_drops_loop.
  set (times := frame_times sr (length bass_energy)).
  rewrite (fold_left_flagged (fun i => nth i times 0)
             (big_drop_candidate bass_energy) min_big_drop_gap
             (fun i => big_drop_record duration (nth i times 0)
                         (bass_before bass_energy i)
                         (bass_after bass_energy i))
             _ (big_drop_step_test duration bass_energy times)).
  simpl.
  assert (Hext : forall i,
             In i (seq window_before
                       (length bass_energy - window_after - window_before)) ->
             nth i times 0 = frames_to_time sr i
             /\ big_drop_candidate bass_energy i
                = big_drop_candidate bass_energy i).
  { intros i Hi. apply in_seq in Hi. split; [|reflexivity].
    apply frame_times_nth. lia. }
  destruct (flagged_ext _ _ _ _ min_big_drop_gap (- min_big_drop_gap) _ Hext)
    as [-> _].
  fold (big_drop_frames sr bass_energy).
  apply map_ext_in. intros i Hi. apply big_drop_frames_range in Hi.
  subst times. rewrite frame_times_nth by lia. reflexivity.
Qed.

Lemma big_drop_candidate_spec (bass_energy : list Q) (i : nat) :
  big_drop_candidate bass_energy i = true
  <-> bass_before bass_energy i < 0.15
      /\ 0.3 < bass_after bass_energy i
      /\ bass_before bass_energy i * 3 < bass_after bass_energy i.
Proof.
  unfold big_drop_candidate.
  rewrite !andb_true_iff, !Qltb_lt. tauto.
Qed.

(** The two windows are the 40 frames before [i] and the 20 frames from
    [i] on. *)
Lemma big_drop_windows (bass_energy : list Q) (i : nat) :
  (window_before <= i /\ i + window_after < length bass_energy)%nat ->
  (length (slice bass_energy (i - window_before) i) = 40%nat
   /\ forall k, (k < 40)%nat ->
                nth k (slice bass_energy (i - window_before) i) 0
                = nth (i - 40 + k) bass_energy 0)
  /\ (length (slice bass_energy i (i + window_after)) = 20%nat
      /\ forall k, (k < 20)%nat ->
                   nth k (slice bass_energy i (i + window_after)) 0
                   = nth (i + k) bass_energy 0).
Proof.
  unfold window_before, window_after. intro Hi. repeat split.
  - rewrite slice_length by lia. lia.
  - intros k Hk. apply slice_nth. lia.
  - rewrite slice_length by lia. lia.
  - intros k Hk. apply slice_nth. lia.
Qed.

Lemma np_div_finite (x y : Q) : ~ y == 0 -> np_div x y = Finite (x / y).
Proof.
  intro H. unfold np_div.
  destruct (Qeq_bool y 0) eqn:E; [|reflexivity].
  apply Qeq_bool_iff in E. contradiction.
Qed.

Lemma np_div64_finite (x y : Q) :
  ~ y == 0 -> np_div64 x y = Finite (fl64 (fl64 x / fl64 y)).
Proof.
  intro H. unfold np_div64.
  destruct (Qeq_bool y 0) eqn:E; [|reflexivity].
  apply Qeq_bool_iff in E. contradiction.
Qed.

(** What a flagged frame records. *)
Lemma big_drop_record_fields (duration t before after : Q) :
  let r := big_drop_record duration t before after in
  bd_time r = py_round 3 t
  /\ bd_percent r = np_round 1 (np_mul64 (np_div64 t duration) 100)
  /\ (0 < duration ->
      bd_percent r
      = Finite (py_round 1 (fl64 (fl64 (fl64 t / fl64 duration) * 100))))
  /\ (0 < before -> bd_intensity r = py_round 2 (after / before))
  /\ (before == 0 -> bd_intensity r = 10).
Proof.
  simpl. repeat split.
  - intro Hd. rewrite np_div64_finite by lra. reflexivity.
  - intro Hb. apply Qltb_lt in Hb. rewrite Hb. reflexivity.
  - intro Hb.
    assert (E : Qltb 0 before = false) by (apply Qltb_ge; lra).
    rewrite E. reflexivity.
Qed.


(** ** The assembled result *)

Lemma normalize_band_length (e e' : list Q) :
  normalize_band e = Ok e' -> length e' = length e.
Proof.
  unfold normalize_band, np_max.
  destruct e as [|x xs]; simpl; [discriminate|].
  destruct (Qltb 0 (fold_left Qmaxb xs x)); intro H; injection H as <-.
  - simpl. rewrite length_map. reflexivity.
  - reflexivity.
Qed.

Lemma normalize_onset_length (e : list Q) (e' : list npfloat) :
  normalize_onset e = Ok e' -> length e' = length e.
Proof.
  unfold normalize_onset, np_max.
  destruct e as [|x xs]; simpl; [discriminate|].
  intro H; injection H as <-. simpl. rewrite length_map. reflexivity.
Qed.

(** A successful analysis, stage by stage. *)
Lemma analyze_features_inv (f : features) (out : output) :
  analyze_features f = Ok out ->
  exists onset_env bass_energy mid_energy high_energy,
    normalize_onset (ft_onset_env f) = Ok onset_env
    /\ normalize_band (map bf_bass (ft_bands f)) = Ok bass_energy
    /\ normalize_band (map bf_mid (ft_bands f)) = Ok mid_energy
    /\ normalize_band (map bf_high (ft_bands f)) = Ok high_energy
    /\ length bass_energy = length (ft_bands f)
    /\ let spec_times := frame_times (ft_sr f) (length bass_energy) in
       let drops := detect_drops bass_energy spec_times in
       out = {| o_duration := py_round 2 (ft_duration f);
                o_tempo := py_round 1 (tempo_float (ft_tempo f));
                o_beatCount := length (ft_beat_times f);
                o_beats := map (py_round 3) (ft_beat_times f);
                o_drops := drops;
                o_bigDrops := detect_big_drops (ft_duration f) bass_energy
                                               spec_times;
                o_timeline :=
                  build_timeline
                    {| cv_onset_env := onset_env;
                       cv_onset_times :=
                         frame_times (ft_sr f) (length (ft_onset_env f));
                       cv_bass_energy := bass_energy;
                       cv_mid_energy := mid_energy;
                       cv_high_energy := high_energy;
                       cv_spec_times := spec_times;
                       cv_beat_times := ft_beat_times f;
                       cv_drops := drops |}
                    (ft_duration f) |}.
Proof.
  unfold analyze_features.
  destruct (normalize_onset (ft_onset_env f)) as [onset_env|] eqn:Eo;
    simpl; [|discriminate].
  destruct (normalize_band (map bf_bass (ft_bands f))) as [bass_energy|]
    eqn:Eb; simpl; [|discriminate].
  destruct (normalize_band (map bf_mid (ft_bands f))) as [mid_energy|]
    eqn:Em; simpl; [|discriminate].
  destruct (normalize_band (map bf_high (ft_bands f))) as [high_energy|]
    eqn:Eh; simpl; [|discriminate].
  intro H. injection H as <-.
  exists onset_env, bass_energy, mid_energy, high_energy.
  pose proof (normalize_band_length _ _ Eb) as Hlen.
  rewrite length_map in Hlen.
  repeat split; try assumption.
  rewrite Hlen. reflexivity.
Qed.

(** The analysis succeeds as soon as librosa delivers at least one onset
    frame and one spectrogram frame. *)
Lemma analyze_features_total (f : features) :
  ft_onset_env f <> [] -> ft_bands f <> [] ->
  exists out, analyze_features f = Ok out.
Proof.
  intros Ho Hb. unfold analyze_features, normalize_onset, normalize_band.
  destruct (ft_onset_env f) as [|o os]; [contradiction|].
  destruct (ft_bands f) as [|b bs]; [contradiction|].
  simpl.
  repeat match goal with
         | |- context [if ?c then _ else _] => destruct c; simpl
         end; eexists; reflexivity.
Qed.

(** [result_of] is the result of every run that gets a frame of each
    kind. *)
Lemma result_of_ok (f : features) :
  (0 < length (ft_onset_env f))%nat -> (0 < length (ft_bands f))%nat ->
  analyze_features f = Ok (result_of f).
Proof.
  intros Ho Hb.
  destruct (analyze_features_total f) as [out Hout].
  - intro E. rewrite E in Ho. simpl in Ho. lia.
  - intro E. rewrite E in Hb. simpl in Hb. lia.
  - unfold result_of. rewrite Hout. reflexivity.
Qed.

(** Closes [analyze_features f = Ok (result_of f)] for a sample input. *)
Ltac run_ok := apply result_of_ok; vm_compute; lia.

Lemma nth_map_in {A B : Type} (g : A -> B) (l : list A) (k : nat)
    (dA : A) (dB : B) :
  (k < length l)%nat -> nth k (map g l) dB = g (nth k l dA).
Proof.
  intro H. rewrite (nth_indep _ dB (g dA)) by (rewrite length_map; exact H).
  apply map_nth.
Qed.

(** ** Debounce on the recorded times *)

(** On the frame grid of 22050 Hz, frames more than 2.0 s apart are at
    least 87 frames apart, hence more than 2.001 s. *)
Lemma default_grid_gap_2 (i j : nat) :
  2 < frames_to_time default_sr j - frames_to_time default_sr i ->
  2 + (1 # 1000) < frames_to_time default_sr j - frames_to_time default_sr i.
Proof.
  rewrite frames_to_time_diff. unfold default_sr.
  intro H.
  destruct (Z_lt_le_dec (Z.of_nat j) (Z.of_nat i + 87)) as [Hlt|Hge].
  - assert (Hq : inject_Z (Z.of_nat j) <= inject_Z (Z.of_nat i + 86))
      by (rewrite <- Zle_Qle; lia).
    rewrite inject_Z_plus in Hq. change (inject_Z 86) with 86 in Hq. lra.
  - rewrite Zle_Qle, inject_Z_plus in Hge.
    change (inject_Z 87) with 87 in Hge. lra.
Qed.

(** Likewise frames more than 10.0 s apart are at least 431 frames apart,
    hence more than 10.001 s. *)
Lemma default_grid_gap_10 (i j : nat) :
  10 < frames_to_time default_sr j - frames_to_time default_sr i ->
  10 + (1 # 1000)
  < frames_to_time default_sr j - frames_to_time default_sr i.
Proof.
  rewrite frames_to_time_diff. unfold default_sr.
  intro H.
  destruct (Z_lt_le_dec (Z.of_nat j) (Z.of_nat i + 431)) as [Hlt|Hge].
  - assert (Hq : inject_Z (Z.of_nat j) <= inject_Z (Z.of_nat i + 430))
      by (rewrite <- Zle_Qle; lia).
    rewrite inject_Z_plus in Hq. change (inject_Z 430) with 430 in Hq. lra.
  - rewrite Zle_Qle, inject_Z_plus in Hge.
    change (inject_Z 431) with 431 in Hge. lra.
Qed.

Lemma py_round3_gap (g x y : Q) :
  g + (1 # 1000) < y - x -> g < py_round 3 y - py_round 3 x.
Proof.
  intro H. pose proof (py_round3_near x). pose proof (py_round3_near y). lra.
Qed.

(** On any frame grid the recorded times of two drops in a row are at least
    the gap apart (rounding can close the gap, never invert it). *)
Lemma py_round3_gap_weak (g x y : Q) :
  g < y - x -> g - (1 # 1000) < py_round 3 y - py_round 3 x.
Proof.
  intro H. pose proof (py_round3_near x). pose proof (py_round3_near y). lra.
Qed.

(** At any sample rate the frames of two drops in a row are more than the
    gap apart, and their recorded times more than the gap less a
    millisecond. *)
Lemma debounce_any_rate (sr : positive) (bass_energy : list Q) (k : nat) :
  (S k < length (drop_frames sr bass_energy))%nat ->
  let i := nth k (drop_frames sr bass_energy) 0%nat in
  let j := nth (S k) (drop_frames sr bass_energy) 0%nat in
  2 < frames_to_time sr j - frames_to_time sr i
  /\ 2 - (1 # 1000)
     < py_round 3 (frames_to_time sr j) - py_round 3 (frames_to_time sr i).
Proof.
  intros Hk i j.
  assert (H : 2 < frames_to_time sr j - frames_to_time sr i)
    by (apply (flagged_consecutive _ _ min_drop_gap); exact Hk).
  split; [exact H | apply py_round3_gap_weak, H].
Qed.

Lemma big_debounce_any_rate (sr : positive) (bass_energy : list Q) (k : nat) :
  (S k < length (big_drop_frames sr bass_energy))%nat ->
  let i := nth k (big_drop_frames sr bass_energy) 0%nat in
  let j := nth (S k) (big_drop_frames sr bass_energy) 0%nat in
  10 < frames_to_time sr j - frames_to_time sr i
  /\ 10 - (1 # 1000)
     < py_round 3 (frames_to_time sr j) - py_round 3 (frames_to_time sr i).
Proof.
  intros Hk i j.
  assert (H : 10 < frames_to_time sr j - frames_to_time sr i)
    by (apply (flagged_consecutive _ _ min_big_drop_gap); exact Hk).
  split; [exact H | apply py_round3_gap_weak, H].
Qed.

(** C4.  In the result of a run (librosa's frame grid at 22050 Hz), two
    transient drops in a row have recorded times more than 2.0 s apart and
    two big drops in a row have recorded times more than 10.0 s apart: the
    gap test is on the unrounded frame times, and frames that pass it are
    far enough apart for the rounding to 3 decimals not to matter. *)
Theorem debounce_recorded (f : features) (out : output) :
  analyze_features f = Ok out ->
  ft_sr f = default_sr ->
  (forall k, (S k < length (o_drops out))%nat ->
             2 < nth (S k) (o_drops out) 0 - nth k (o_drops out) 0)
  /\ (forall k d, (S k < length (o_bigDrops out))%nat ->
                  10 < bd_time (nth (S k) (o_bigDrops out) d)
                       - bd_time (nth k (o_bigDrops out) d)).
Proof.
  intros Hrun Hsr.
  apply analyze_features_inv in Hrun.
  destruct Hrun as (onset_env & bass_energy & mid_energy & high_energy
                    & _ & _ & _ & _ & _ & Hout).
  simpl in Hout. rewrite Hsr in Hout. subst out. simpl.
  rewrite detect_drops_frames, detect_big_drops_frames.
  split.
  - intros k Hk. rewrite length_map in Hk.
    rewrite !(nth_map_in _ _ _ 0%nat) by lia.
    apply py_round3_gap, default_grid_gap_2.
    apply (flagged_consecutive _ _ min_drop_gap). exact Hk.
  - intros k d Hk. rewrite length_map in Hk.
    rewrite !(nth_map_in _ _ _ 0%nat) by lia. simpl.
    apply py_round3_gap, default_grid_gap_10.
    apply (flagged_consecutive _ _ min_big_drop_gap). exact Hk.
Qed.

Lemma debounce_recorded_witness :
  2 < nth 1 (o_drops (result_of two_hits)) 0
      - nth 0 (o_drops (result_of two_hits)) 0
  /\ forall k d,
       (S k < length (o_bigDrops (result_of two_entries)))%nat ->
       10 < bd_time (nth (S k) (o_bigDrops (result_of two_entries)) d)
            - bd_time (nth k (o_bigDrops (result_of two_entries)) d).
Proof.
  assert (Hrun1 : analyze_features two_hits = Ok (result_of two_hits)) by run_ok.
  assert (Hlen1 : (1 < length (o_drops (result_of two_hits)))%nat)
    by (vm_compute; lia).
  assert (Hrun2 : analyze_features two_entries = Ok (result_of two_entries)) by run_ok.
  split.
  - exact (proj1 (debounce_recorded _ _ Hrun1 eq_refl) 0%nat Hlen1).
  - exact (proj2 (debounce_recorded _ _ Hrun2 eq_refl)).
Defined.

(** ** Big-drop intensity *)

Lemma big_drop_record_intensity (duration t before after : Q) :
  before * 3 < after ->
  3 <= bd_intensity (big_drop_record duration t before after).
Proof.
  intro H. simpl.
  destruct (Qltb 0 before) eqn:E.
  - apply Qltb_lt in E.
    assert (H3 : inject_Z 300 / inject_Z (pow10 2) <= after / before).
    { change (inject_Z 300 / inject_Z (pow10 2)) with (300 / 100).
      apply Qle_shift_div_l; [exact E|].
      setoid_replace (300 / 100) with 3 by reflexivity. lra. }
    apply py_round_lower in H3.
    change (inject_Z 300 / inject_Z (pow10 2)) with (300 / 100) in H3.
    setoid_replace (300 / 100) with 3 in H3 by reflexivity. exact H3.
  - lra.
Qed.

(** C10.  Every big drop of a result has intensity at least 3.0: with a
    positive before-mean the flagged ratio is above 3 and stays at or above
    3.00 when rounded to 2 decimals; otherwise the sentinel 10.0 is
    recorded. *)
Theorem big_drop_intensity_at_least_3 (f : features) (out : output) :
  analyze_features f = Ok out ->
  Forall (fun r => 3 <= bd_intensity r) (o_bigDrops out).
Proof.
  intro Hrun. apply analyze_features_inv in Hrun.
  destruct Hrun as (onset_env & bass_energy & mid_energy & high_energy
                    & _ & _ & _ & _ & _ & Hout).
  simpl in Hout. subst out. simpl.
  rewrite detect_big_drops_frames.
  apply Forall_forall. intros r Hr. apply in_map_iff in Hr.
  destruct Hr as (i & <- & Hi).
  apply flagged_In in Hi. destruct Hi as [_ Hc].
  apply big_drop_candidate_spec in Hc. destruct Hc as (_ & _ & H3).
  apply big_drop_record_intensity, H3.
Qed.

Lemma big_drop_intensity_at_least_3_witness :
  Forall (fun r => 3 <= bd_intensity r) (o_bigDrops (result_of one_entry))
  /\ map bd_intensity (o_bigDrops (result_of one_entry)) = [py_round 2 (1 / 0.05)].
Proof.
  assert (Hrun : analyze_features one_entry = Ok (result_of one_entry)) by run_ok.
  split.
  - exact (big_drop_intensity_at_least_3 _ _ Hrun).
  - vm_compute. reflexivity.
Defined.

(** ** The timeline grid *)

Lemma ticks_length (duration : Q) :
  length (ticks duration)
  = Z.to_nat (Qceiling (duration / sample_interval)).
Proof.
  unfold ticks, np_arange. rewrite length_map, length_seq. reflexivity.
Qed.

Lemma ticks_nth (duration : Q) (k : nat) :
  (k < length (ticks duration))%nat -> nth k (ticks duration) 0 = tick k.
Proof.
  intro Hk. rewrite ticks_length in Hk. unfold ticks, np_arange.
  rewrite (nth_map_in _ _ _ 0%nat) by (rewrite length_seq; exact Hk).
  rewrite seq_nth by exact Hk. reflexivity.
Qed.

(** A tick has at most three decimals. *)
Lemma tick_round (k : nat) : py_round 3 (tick k) == tick k.
Proof.
  apply (py_round_exact 3 _ (50 * Z.of_nat k)).
  unfold tick, sample_interval.
  change (inject_Z (pow10 3)) with 1000.
  rewrite inject_Z_mult. change (inject_Z 50) with 50. field.
Qed.

Lemma tick_lt (j k : nat) : (j < k)%nat -> tick j < tick k.
Proof.
  intro H. unfold tick, sample_interval.
  assert (inject_Z (Z.of_nat j) < inject_Z (Z.of_nat k))
    by (rewrite <- Zlt_Qlt; lia).
  lra.
Qed.

Lemma tick_nonneg (k : nat) : 0 <= tick k.
Proof.
  unfold tick, sample_interval.
  assert (inject_Z 0 <= inject_Z (Z.of_nat k)) by (rewrite <- Zle_Qle; lia).
  change (inject_Z 0) with 0 in *. lra.
Qed.

(** Every tick of the grid lies before [duration]. *)
Lemma tick_before_duration (duration : Q) (k : nat) :
  (k < length (ticks duration))%nat -> tick k < duration.
Proof.
  rewrite ticks_length. intro Hk.
  pose proof (Qceiling_lt (duration / sample_interval)) as Hc.
  assert (Hz : (Z.of_nat k <= Qceiling (duration / sample_interval) - 1)%Z)
    by lia.
  rewrite Zle_Qle in Hz.
  assert (Hq : inject_Z (Z.of_nat k) < duration / sample_interval) by lra.
  unfold tick.
  assert (Hs : 0 < sample_interval) by reflexivity.
  setoid_replace duration with (duration / sample_interval * sample_interval)
    by (field; unfold sample_interval; lra).
  apply Qmult_lt_compat_r; assumption.
Qed.

Lemma ticks_empty (duration : Q) : duration <= 0 -> ticks duration = [].
Proof.
  intro H. unfold ticks, np_arange.
  assert (Hq : duration / sample_interval <= 0).
  { apply Qle_shift_div_r; [reflexivity | lra]. }
  apply Qceiling_resp_le in Hq. change (Qceiling 0) with 0%Z in Hq.
  replace (Z.to_nat (Qceiling (duration / sample_interval))) with 0%nat
    by lia.
  reflexivity.
Qed.

Lemma ticks_count_positive (duration : Q) :
  0 < duration ->
  Z.of_nat (length (ticks duration)) = Qceiling (duration / sample_interval).
Proof.
  intro H. rewrite ticks_length.
  assert (Hq : 0 <= duration / sample_interval).
  { apply Qle_shift_div_l; [reflexivity | lra]. }
  apply Qceiling_resp_le in Hq. change (Qceiling 0) with 0%Z in Hq.
  lia.
Qed.

Lemma timeline_nth (c : curves) (duration : Q) (k : nat) (d : entry) :
  (k < length (build_timeline c duration))%nat ->
  nth k (build_timeline c duration) d = timeline_entry c (tick k).
Proof.
  unfold build_timeline. rewrite length_map. intro Hk.
  rewrite (nth_map_in _ _ _ 0) by exact Hk.
  rewrite ticks_nth by exact Hk. reflexivity.
Qed.

(** C5.  The timeline of a result has exactly [ceil(duration / 0.05)]
    entries when [duration > 0] and none when [duration <= 0]; entry [k]
    carries [t = k * 0.05], which is non-negative and below [duration], so
    the entries are in strictly increasing order of [t]. *)
Theorem timeline_coverage (f : features) (out : output) :
  analyze_features f = Ok out ->
  let duration := ft_duration f in
  (0 < duration ->
   Z.of_nat (length (o_timeline out)) = Qceiling (duration / 0.05))
  /\ (forall k d, (k < length (o_timeline out))%nat ->
                  e_t (nth k (o_timeline out) d)
                  == inject_Z (Z.of_nat k) * 0.05
                  /\ 0 <= e_t (nth k (o_timeline out) d)
                  /\ e_t (nth k (o_timeline out) d) < duration)
  /\ (forall k d, (S k < length (o_timeline out))%nat ->
                  e_t (nth k (o_timeline out) d)
                  < e_t (nth (S k) (o_timeline out) d))
  /\ (duration <= 0 -> o_timeline out = []).
Proof.
  intros Hrun duration. apply analyze_features_inv in Hrun.
  destruct Hrun as (onset_env & bass_energy & mid_energy & high_energy
                    & _ & _ & _ & _ & _ & Hout).
  simpl in Hout. subst out. simpl. fold duration.
  split; [|split; [|split]].
  - intro Hd. unfold build_timeline. rewrite length_map.
    apply ticks_count_positive, Hd.
  - intros k d Hk. rewrite timeline_nth by exact Hk. simpl.
    unfold build_timeline in Hk. rewrite length_map in Hk.
    pose proof (tick_round k) as Hr.
    pose proof (tick_nonneg k) as H0.
    pose proof (tick_before_duration duration k Hk) as Hlt.
    fold sample_interval. fold (tick k).
    repeat split; lra.
  - intros k d Hk. rewrite !timeline_nth by lia. simpl.
    pose proof (tick_round k). pose proof (tick_round (S k)).
    pose proof (tick_lt k (S k) ltac:(lia)). lra.
  - intro Hd. unfold build_timeline. rewrite ticks_empty by exact Hd.
    reflexivity.
Qed.

Lemma timeline_coverage_witness :
  Z.of_nat (length (o_timeline (result_of one_entry))) = 33%Z
  /\ e_t (nth 20 (o_timeline (result_of one_entry)) blank_entry)
     < ft_duration one_entry.
Proof.
  assert (Hrun : analyze_features one_entry = Ok (result_of one_entry)) by run_ok.
  assert (Hlen : (20 < length (o_timeline (result_of one_entry)))%nat)
    by (vm_compute; lia).
  pose proof (timeline_coverage one_entry _ Hrun) as (Hcount & Hentry & _).
  split.
  - rewrite Hcount by reflexivity. vm_compute. reflexivity.
  - exact (proj2 (proj2 (Hentry 20%nat _ Hlen))).
Defined.

(** ** Nearest-neighbour sampling *)

Lemma first_minimum_snoc_new (pre : list Q) (besti : nat) (x : Q) :
  first_minimum pre besti -> x < nth besti pre 0 ->
  first_minimum (pre ++ [x]) (length pre).
Proof.
  intros (Hlt & Hmin & Hfirst) Hx.
  unfold first_minimum. rewrite length_app. simpl.
  rewrite nth_middle.
  split; [lia|]. split.
  - intros j Hj. destruct (Nat.eq_dec j (length pre)) as [->|Hne].
    + rewrite nth_middle. lra.
    + rewrite app_nth1 by lia. specialize (Hmin j ltac:(lia)). lra.
  - intros j Hj. rewrite app_nth1 by lia. specialize (Hmin j ltac:(lia)).
    lra.
Qed.

Lemma first_minimum_snoc_keep (pre : list Q) (besti : nat) (x : Q) :
  first_minimum pre besti -> nth besti pre 0 <= x ->
  first_minimum (pre ++ [x]) besti.
Proof.
  intros (Hlt & Hmin & Hfirst) Hx.
  unfold first_minimum. rewrite length_app. simpl.
  rewrite (app_nth1 pre [x] 0 Hlt).
  split; [lia|]. split.
  - intros j Hj. destruct (Nat.eq_dec j (length pre)) as [->|Hne].
    + rewrite nth_middle. exact Hx.
    + rewrite app_nth1 by lia. apply Hmin. lia.
  - intros j Hj. rewrite app_nth1 by lia. apply Hfirst, Hj.
Qed.

Lemma argmin_from_spec (xs : list Q) :
  forall (pre : list Q) (best : Q) (besti i : nat),
    i = length pre ->
    first_minimum pre besti -> nth besti pre 0 = best ->
    first_minimum (pre ++ xs) (argmin_from best besti i xs).
Proof.
  induction xs as [|x xs IH]; intros pre best besti i Hi Hpre Hbest; simpl.
  - rewrite app_nil_r. exact Hpre.
  - replace (pre ++ x :: xs) with ((pre ++ [x]) ++ xs)
      by (rewrite <- app_assoc; reflexivity).
    assert (Hlen : S i = length (pre ++ [x]))
      by (rewrite length_app; simpl; lia).
    destruct (Qltb x best) eqn:E.
    + apply Qltb_lt in E. apply IH.
      * exact Hlen.
      * subst i. apply (first_minimum_snoc_new pre besti).
        -- exact Hpre.
        -- rewrite Hbest. exact E.
      * subst i. apply nth_middle.
    + apply Qltb_ge in E. apply IH.
      * exact Hlen.
      * apply first_minimum_snoc_keep; [exact Hpre | rewrite Hbest; exact E].
      * destruct Hpre as (Hlt & _). rewrite app_nth1 by exact Hlt.
        exact Hbest.
Qed.

(** [np.argmin] returns the index of the first minimum. *)
Lemma np_argmin_spec (a : list Q) : a <> [] -> first_minimum a (np_argmin a).
Proof.
  destruct a as [|x xs]; [contradiction|]. intros _.
  unfold np_argmin.
  apply (argmin_from_spec xs [x] x 0%nat 1%nat); [reflexivity| |reflexivity].
  unfold first_minimum. simpl. split; [lia|]. split.
  - intros j Hj. replace j with 0%nat by lia. lra.
  - intros j Hj. lia.
Qed.

Lemma closest_index_spec (times : list Q) (t : Q) :
  times <> [] -> nearest_frame times t (closest_index times t).
Proof.
  intro H. unfold nearest_frame, closest_index. apply np_argmin_spec.
  destruct times; [contradiction | discriminate].
Qed.

Lemma frame_times_nonempty (sr : positive) (n : nat) :
  (0 < n)%nat -> frame_times sr n <> [].
Proof.
  intros Hn E. apply (f_equal (@length Q)) in E.
  rewrite frame_times_length in E. simpl in E. lia.
Qed.

Lemma normalize_band_nonempty (e e' : list Q) :
  normalize_band e = Ok e' -> (0 < length e)%nat.
Proof.
  unfold normalize_band, np_max. destruct e; simpl; [discriminate | lia].
Qed.

(** ** Beat and drop flags *)

Lemma any_within_spec (tol t : Q) (bs : list Q) :
  any_within tol t bs = true <-> exists b, In b bs /\ Qabs (b - t) < tol.
Proof.
  unfold any_within. rewrite existsb_exists.
  split; intros (b & Hb & H); exists b; (split; [exact Hb|]);
    apply Qltb_lt; exact H.
Qed.

Lemma ticks_enough (duration : Q) (k : nat) :
  tick k < duration -> (k < length (ticks duration))%nat.
Proof.
  intro H. rewrite ticks_length.
  pose proof (Qle_ceiling (duration / sample_interval)) as Hc.
  assert (Hq : inject_Z (Z.of_nat k) < duration / sample_interval).
  { apply Qlt_shift_div_l; [reflexivity | exact H]. }
  assert (Hz : (Z.of_nat k < Qceiling (duration / sample_interval))%Z)
    by (rewrite Zlt_Qlt; lra).
  lia.
Qed.

(** ** The timeline loop in double precision *)








(** At t = 25.6 s the frames 1102 and 1103 are equally far in exact
    arithmetic; their doubles are not, and the script samples frame 1103. *)
Lemma tie_at_25_6 :
  py_round 3 (tick64 512) == 25.6
  /\ closest_index64 (frame_times64 default_sr 1200) (tick64 512) = 1103%nat
  /\ e_bass (timeline_entry64 grid_curves (tick64 512))
     = py_round 3 (nth 1103 (cv_bass_energy grid_curves) 0).
Proof.
  split; [vm_compute; reflexivity|].
  split; vm_compute; reflexivity.
Qed.


(** The tolerances are the doubles of 0.025 and 0.1. *)
Lemma tolerances64 :
  beat_tolerance64 = fl64 0.025 /\ drop_tolerance64 = fl64 0.1.
Proof. split; vm_compute; reflexivity. Qed.




(** A drop recorded as 0.65 s sets the flag of the ticks 0.55 to 0.75: the
    doubles of 0.65 and 0.55 are less than the double of 0.1 apart.  A beat
    at 0.125 s sets the flag of the tick 0.1 alone. *)
Lemma flags_at_the_window_edge :
  filter (fun k => e_drop (timeline_entry64 grid_curves (tick64 k)))
         (seq 0 30)
  = [11; 12; 13; 14; 15]%nat
  /\ filter (fun k => e_beat (timeline_entry64 grid_curves (tick64 k)))
            (seq 0 30)
     = [2]%nat.
Proof.
  split.
  - unfold timeline_entry64. cbn [e_drop]. vm_compute. reflexivity.
  - unfold timeline_entry64. cbn [e_beat]. vm_compute. reflexivity.
Qed.

(** ** Precision of the result *)

(** C8.  In a result the duration is the track duration rounded to 2
    decimals; every beat time, transient-drop time, big-drop time and every
    numeric field of a timeline entry ([t], [bass], [mid], [high], [onset])
    is a value rounded to 3 decimals; the tempo and every big-drop
    percentage are rounded to 1 decimal; every big-drop intensity is a ratio
    rounded to 2 decimals or the sentinel 10.0. *)
Theorem output_precision (f : features) (out : output) :
  analyze_features f = Ok out ->
  o_duration out = py_round 2 (ft_duration f)
  /\ o_tempo out = py_round 1 (tempo_float (ft_tempo f))
  /\ o_beats out = map (py_round 3) (ft_beat_times f)
  /\ Forall (fun x => exists i, x = py_round 3 (frames_to_time (ft_sr f) i))
            (o_drops out)
  /\ Forall (fun r =>
               exists i before after,
                 bd_time r = py_round 3 (frames_to_time (ft_sr f) i)
                 /\ bd_percent r
                    = np_round 1
                        (np_mul64 (np_div64 (frames_to_time (ft_sr f) i)
                                            (ft_duration f)) 100)
                 /\ (bd_intensity r = py_round 2 (after / before)
                     \/ bd_intensity r = 10))
            (o_bigDrops out)
  /\ Forall (fun e =>
               exists k bass mid high onset,
                 e_t e = py_round 3 (tick k)
                 /\ e_bass e = py_round 3 bass
                 /\ e_mid e = py_round 3 mid
                 /\ e_high e = py_round 3 high
                 /\ e_onset e = np_round 3 onset)
            (o_timeline out).
Proof.
  intro Hrun. apply analyze_features_inv in Hrun.
  destruct Hrun as (onset_env & bass_energy & mid_energy & high_energy
                    & _ & _ & _ & _ & _ & Hout).
  simpl in Hout. subst out. simpl.
  split; [reflexivity|]. split; [reflexivity|]. split; [reflexivity|].
  split; [|split].
  - rewrite detect_drops_frames. apply Forall_forall. intros x Hx.
    apply in_map_iff in Hx. destruct Hx as (i & <- & _). exists i.
    reflexivity.
  - rewrite detect_big_drops_frames. apply Forall_forall. intros r Hr.
    apply in_map_iff in Hr. destruct Hr as (i & <- & _).
    exists i, (bass_before bass_energy i), (bass_after bass_energy i).
    split; [reflexivity|]. split; [reflexivity|]. simpl.
    destruct (Qltb 0 (bass_before bass_energy i)); [left | right];
      reflexivity.
  - apply Forall_forall. intros e He. unfold build_timeline in He.
    apply in_map_iff in He. destruct He as (t & <- & Ht).
    unfold ticks, np_arange in Ht. apply in_map_iff in Ht.
    destruct Ht as (k & <- & _).
    eexists k, _, _, _, _. repeat split.
Qed.

Lemma output_precision_witness :
  o_duration (result_of one_entry) = py_round 2 1.6254
  /\ o_tempo (result_of one_entry) = py_round 1 128.
Proof.
  assert (Hrun : analyze_features one_entry = Ok (result_of one_entry)) by run_ok.
  pose proof (output_precision one_entry _ Hrun) as (Hd & Ht & _).
  split; [exact Hd | exact Ht].
Defined.

(** The duration of a result is not the track duration rounded to 3
    decimals: 1.6254 s is reported as 1.63, not as 1.625. *)
Lemma duration_rounded_to_two_decimals :
  analyze_features one_entry = Ok (result_of one_entry)
  /\ o_duration (result_of one_entry) == 1.63
  /\ py_round 3 (ft_duration one_entry) == 1.625
  /\ ~ o_duration (result_of one_entry) == py_round 3 (ft_duration one_entry).
Proof.
  split; [run_ok|].
  split; [vm_compute; reflexivity|].
  split; [vm_compute; reflexivity|].
  vm_compute. discriminate.
Qed.

(** ** The command *)

(** C9.  When the analysis raises, [main] leaves the file as it was,
    prints the error and exits with status 1; with no file argument it
    prints the usage text and exits with status 1, again without touching
    the file.  Whenever a run changes the file, the analysis has returned
    the data written there. *)
Theorem failure_atomicity (w : world) :
  (forall prog filepath rest e,
      w_argv w = prog :: filepath :: rest ->
      analyze_music (w_provider w) filepath = Raise e ->
      r_file (main w) = w_file w
      /\ r_exit (main w) = 1%Z
      /\ r_stdout (main w) = [ErrorLine e])
  /\ ((length (w_argv w) < 2)%nat ->
      r_file (main w) = w_file w
      /\ r_exit (main w) = 1%Z
      /\ r_stdout (main w) = [UsageLine; ExampleLine])
  /\ (r_file (main w) <> w_file w ->
      exists prog filepath rest data,
        w_argv w = prog :: filepath :: rest
        /\ analyze_music (w_provider w) filepath = Ok data
        /\ (r_file (main w) = Dumped data
            \/ exists written, r_file (main w) = Torn data written)).
Proof.
  unfold main. split; [|split].
  - intros prog filepath rest e Hargv Hrun. rewrite Hargv, Hrun.
    repeat split.
  - intro Hlen.
    destruct (w_argv w) as [|prog [|filepath rest]]; simpl in Hlen;
      try lia; repeat split.
  - destruct (w_argv w) as [|prog [|filepath rest]]; simpl;
      try (intro H; contradiction H; reflexivity).
    destruct (analyze_music (w_provider w) filepath) as [data|e] eqn:Erun;
      simpl; [|intro H; contradiction H; reflexivity].
    destruct (w_fault w) as [|e|e written]; simpl; intro H.
    + exists prog, filepath, rest, data.
      split; [reflexivity|]. split; [exact Erun|]. left. reflexivity.
    + contradiction H. reflexivity.
    + exists prog, filepath, rest, data.
      split; [reflexivity|]. split; [exact Erun|]. right. exists written.
      reflexivity.
Qed.

Lemma failure_atomicity_witness :
  (r_file (main failing_world) = Stale "previous run"%string
   /\ r_exit (main failing_world) = 1%Z
   /\ r_stdout (main failing_world)
      = [ErrorLine (ProviderError "missing.mp3"%string)])
  /\ (r_file (main bare_world) = NoFile
      /\ r_exit (main bare_world) = 1%Z
      /\ r_stdout (main bare_world) = [UsageLine; ExampleLine]).
Proof.
  split.
  - apply (proj1 (failure_atomicity failing_world)
             "analyze_music.py"%string "missing.mp3"%string []
             (ProviderError "missing.mp3"%string));
      reflexivity.
  - apply (proj1 (proj2 (failure_atomicity bare_world))). simpl. lia.
Defined.

(** ** Normalisation *)

Lemma Qmaxb_cases (x y : Q) :
  (Qmaxb x y = x \/ Qmaxb x y = y) /\ x <= Qmaxb x y /\ y <= Qmaxb x y.
Proof.
  unfold Qmaxb. destruct (Qltb x y) eqn:E; qltb.
  - split; [right; reflexivity|]. split; lra.
  - split; [left; reflexivity|]. split; lra.
Qed.

Lemma fold_left_Qmaxb_spec (xs : list Q) (x : Q) :
  (fold_left Qmaxb xs x = x \/ In (fold_left Qmaxb xs x) xs)
  /\ x <= fold_left Qmaxb xs x
  /\ Forall (fun y => y <= fold_left Qmaxb xs x) xs.
Proof.
  revert x. induction xs as [|y xs IH]; intro x; simpl.
  - split; [left; reflexivity|]. split; [lra | constructor].
  - destruct (IH (Qmaxb x y)) as (Hin & Hle & Hall).
    destruct (Qmaxb_cases x y) as (Hc & Hx & Hy).
    split; [|split].
    + destruct Hin as [Hin|Hin]; [|right; right; exact Hin].
      rewrite Hin. destruct Hc as [->| ->]; [left | right; left]; reflexivity.
    + lra.
    + constructor; [lra | exact Hall].
Qed.

(** [np.max] returns an element of the array that bounds all of them. *)
Lemma np_max_spec (a : list Q) (m : Q) :
  np_max a = Ok m -> In m a /\ Forall (fun y => y <= m) a.
Proof.
  destruct a as [|x xs]; simpl; [discriminate|].
  intro H. injection H as <-.
  destruct (fold_left_Qmaxb_spec xs x) as (Hin & Hle & Hall).
  split.
  - destruct Hin as [->|Hin]; [left; reflexivity | right; exact Hin].
  - constructor; assumption.
Qed.

Lemma np_max_total (a : list Q) : a <> [] -> exists m, np_max a = Ok m.
Proof.
  destruct a as [|x xs]; [contradiction|]. intros _. eexists. reflexivity.
Qed.

(** The maximum of a curve of non-negative values, not all zero, is
    positive. *)
Lemma np_max_positive (a : list Q) (m : Q) :
  np_max a = Ok m -> Exists (fun x => 0 < x) a -> 0 < m.
Proof.
  intros Hm Hex. apply np_max_spec in Hm. destruct Hm as [_ Hall].
  apply Exists_exists in Hex. destruct Hex as (x & Hx & Hpos).
  rewrite Forall_forall in Hall. specialize (Hall x Hx). lra.
Qed.

(** Dividing a curve by its positive maximum gives a curve of maximum 1. *)
Lemma scaled_max_is_1 (a : list Q) (m m' : Q) :
  np_max a = Ok m -> 0 < m ->
  np_max (map (fun x => x / m) a) = Ok m' -> m' == 1.
Proof.
  intros Hm Hpos Hm'.
  apply np_max_spec in Hm. destruct Hm as [Hin Hall].
  apply np_max_spec in Hm'. destruct Hm' as [Hin' Hall'].
  apply Qle_antisym.
  - apply in_map_iff in Hin'. destruct Hin' as (x & <- & Hx).
    rewrite Forall_forall in Hall. specialize (Hall x Hx).
    apply Qle_shift_div_r; [exact Hpos | lra].
  - rewrite Forall_forall in Hall'.
    assert (H1 : In (m / m) (map (fun x => x / m) a))
      by (apply in_map_iff; exists m; split; [reflexivity | exact Hin]).
    specialize (Hall' _ H1).
    assert (Hone : m / m == 1) by (field; lra).
    lra.
Qed.

(** X3.  A band curve of non-negative values that is not all zero is
    normalised to maximum 1. *)
Lemma normalize_band_max (e : list Q) :
  Forall (fun x => 0 <= x) e -> Exists (fun x => 0 < x) e ->
  exists e' m', normalize_band e = Ok e' /\ np_max e' = Ok m' /\ m' == 1.
Proof.
  intros Hnn Hex.
  assert (Hne : e <> []) by (intro E; subst e; inversion Hex).
  destruct (np_max_total e Hne) as [m Hm].
  pose proof (np_max_positive e m Hm Hex) as Hpos.
  unfold normalize_band. rewrite Hm. simpl.
  assert (E : Qltb 0 m = true) by (apply Qltb_lt; exact Hpos).
  rewrite E.
  assert (Hne' : map (fun x => x / m) e <> [])
    by (destruct e; [contradiction | discriminate]).
  destruct (np_max_total _ Hne') as [m' Hm'].
  exists (map (fun x => x / m) e), m'.
  split; [reflexivity|]. split; [exact Hm'|].
  apply (scaled_max_is_1 e m m' Hm Hpos Hm').
Qed.

(** X4.  An all-zero band curve is left as it is: the guard skips the
    division. *)
Lemma normalize_band_zero (e : list Q) :
  e <> [] -> Forall (fun x => x == 0) e -> normalize_band e = Ok e.
Proof.
  intros Hne Hz.
  destruct (np_max_total e Hne) as [m Hm].
  unfold normalize_band. rewrite Hm. simpl.
  apply np_max_spec in Hm. destruct Hm as [Hin _].
  rewrite Forall_forall in Hz. specialize (Hz m Hin).
  assert (E : Qltb 0 m = false) by (apply Qltb_ge; lra).
  rewrite E. reflexivity.
Qed.

(** X5.  An onset envelope of non-negative values that is not all zero
    is normalised to maximum 1, every frame a finite value. *)
Lemma normalize_onset_max (e : list Q) :
  Forall (fun x => 0 <= x) e -> Exists (fun x => 0 < x) e ->
  exists e' m',
    normalize_onset e = Ok (map Finite e')
    /\ np_max e' = Ok m' /\ m' == 1.
Proof.
  intros Hnn Hex.
  assert (Hne : e <> []) by (intro E; subst e; inversion Hex).
  destruct (np_max_total e Hne) as [m Hm].
  pose proof (np_max_positive e m Hm Hex) as Hpos.
  unfold normalize_onset. rewrite Hm. simpl.
  assert (Hne' : map (fun x => x / m) e <> [])
    by (destruct e; [contradiction | discriminate]).
  destruct (np_max_total _ Hne') as [m' Hm'].
  exists (map (fun x => x / m) e), m'.
  split; [|split; [exact Hm'|]].
  - rewrite map_map. f_equal. apply map_ext. intro x.
    apply np_div_finite. lra.
  - apply (scaled_max_is_1 e m m' Hm Hpos Hm').
Qed.

(** X6.  An all-zero onset envelope is divided by its maximum 0 all the
    same: every frame becomes [nan]. *)
Lemma normalize_onset_zero (e : list Q) :
  e <> [] -> Forall (fun x => x == 0) e ->
  normalize_onset e = Ok (map (fun _ => NaN) e).
Proof.
  intros Hne Hz.
  destruct (np_max_total e Hne) as [m Hm].
  unfold normalize_onset. rewrite Hm. simpl.
  apply np_max_spec in Hm. destruct Hm as [Hin _].
  rewrite Forall_forall in Hz. pose proof (Hz m Hin) as Hm0.
  f_equal. apply map_ext_in. intros x Hx. specialize (Hz x Hx).
  unfold np_div.
  assert (E1 : Qeq_bool m 0 = true) by (apply Qeq_bool_iff; exact Hm0).
  assert (E2 : Qeq_bool x 0 = true) by (apply Qeq_bool_iff; exact Hz).
  rewrite E1, E2. reflexivity.
Qed.

(** C1.  On a silent clip the three band curves stay all zero, but the
    onset envelope, whose division by its maximum is not guarded, becomes
    [nan] in every frame, and so does the [onset] field of every timeline
    entry. *)
Theorem silent_onset_becomes_nan :
  normalize_band (map bf_bass (ft_bands silence)) = Ok [0; 0; 0]
  /\ normalize_onset (ft_onset_env silence) = Ok [NaN; NaN; NaN]
  /\ map e_onset (o_timeline (result_of silence)) = [NaN; NaN]
  /\ analyze_features silence = Ok (result_of silence).
Proof.
  split; [vm_compute; reflexivity|].
  split; [vm_compute; reflexivity|].
  split; [vm_compute; reflexivity|].
  split; vm_compute; reflexivity.
Qed.

(** ** Worked examples *)

Ltac qeq_list :=
  repeat (apply Forall2_cons; [vm_compute; reflexivity|]); apply Forall2_nil.

(** Two bass hits 90 frames apart are both flagged. *)
Lemma two_hits_drops :
  drop_frames default_sr
    (curve_of (normalize_band (map bf_bass (ft_bands two_hits))))
  = [10; 100]%nat
  /\ Forall2 Qeq (o_drops (result_of two_hits)) [0.232; 2.322].
Proof.
  split; [vm_compute; reflexivity|].
  assert (E : o_drops (result_of two_hits)
              = [py_round 3 (frames_to_time default_sr 10);
                 py_round 3 (frames_to_time default_sr 100)])
    by (vm_compute; reflexivity).
  rewrite E. qeq_list.
Qed.

(** The second loud passage starts at frame 480, but the frames from 467
    on already see a loud enough future; the first of them more than 10 s
    after frame 40 is frame 471. *)
Lemma two_entries_big_drops :
  big_drop_frames default_sr
    (curve_of (normalize_band (map bf_bass (ft_bands two_entries))))
  = [40; 471]%nat
  /\ map bd_time (o_bigDrops (result_of two_entries))
     = [py_round 3 (frames_to_time default_sr 40);
        py_round 3 (frames_to_time default_sr 471)]
  /\ 10 < py_round 3 (frames_to_time default_sr 471)
          - py_round 3 (frames_to_time default_sr 40)
  /\ map bd_intensity (o_bigDrops (result_of two_entries))
     = [10; 10]
  /\ map bd_percent (o_bigDrops (result_of two_entries))
     = [np_round 1 (Finite 7.14); np_round 1 (Finite 84.13)].
Proof.
  split; [vm_compute; reflexivity|].
  split; [vm_compute; reflexivity|].
  split; [vm_compute; reflexivity|].
  split; vm_compute; reflexivity.
Qed.

(** * Further properties *)

(** ** Values of the normalised curves *)

Lemma py_round_upper (n : nat) (x : Q) (z : Z) :
  x <= inject_Z z / inject_Z (pow10 n) ->
  py_round n x <= inject_Z z / inject_Z (pow10 n).
Proof.
  intro H. unfold py_round.
  pose proof (pow10_pos n) as Hp.
  assert (Hz : x * inject_Z (pow10 n) <= inject_Z z).
  { setoid_replace (inject_Z z)
      with (inject_Z z / inject_Z (pow10 n) * inject_Z (pow10 n))
      by (field; lra).
    apply Qmult_le_compat_r; [exact H | lra]. }
  apply round_half_even_upper in Hz.
  unfold Qdiv. apply Qmult_le_compat_r.
  - rewrite <- Zle_Qle. exact Hz.
  - apply Qinv_le_0_compat. lra.
Qed.

(** Rounding to 3 decimals keeps a value of [[0, 1]] in [[0, 1]]. *)
Lemma py_round3_unit (x : Q) : 0 <= x <= 1 -> 0 <= py_round 3 x <= 1.
Proof.
  intros [H0 H1]. split.
  - assert (H : inject_Z 0 / inject_Z (pow10 3) <= x)
      by (setoid_replace (inject_Z 0 / inject_Z (pow10 3)) with 0
            by reflexivity; exact H0).
    apply py_round_lower in H.
    setoid_replace (inject_Z 0 / inject_Z (pow10 3)) with 0 in H
      by reflexivity.
    exact H.
  - assert (H : x <= inject_Z 1000 / inject_Z (pow10 3))
      by (setoid_replace (inject_Z 1000 / inject_Z (pow10 3)) with 1
            by reflexivity; exact H1).
    apply py_round_upper in H.
    setoid_replace (inject_Z 1000 / inject_Z (pow10 3)) with 1 in H
      by reflexivity.
    exact H.
Qed.

(** Normalising a band curve of non-negative values gives values between
    0 and 1, whether or not the guard lets the division happen. *)
Lemma normalize_band_unit_interval (e e' : list Q) :
  normalize_band e = Ok e' ->
  Forall (fun x => 0 <= x) e ->
  Forall (fun x => 0 <= x <= 1) e'.
Proof.
  unfold normalize_band. intros Hn Hnn.
  destruct (np_max e) as [m|] eqn:Hm; simpl in Hn; [|discriminate].
  pose proof (np_max_spec e m Hm) as [Hin Hall].
  rewrite Forall_forall in Hnn, Hall.
  destruct (Qltb 0 m) eqn:E; injection Hn as <-; qltb.
  - apply Forall_forall. intros y Hy. apply in_map_iff in Hy.
    destruct Hy as (x & <- & Hx).
    specialize (Hnn x Hx). specialize (Hall x Hx). split.
    + apply Qle_shift_div_l; [exact E | lra].
    + apply Qle_shift_div_r; [exact E | lra].
  - apply Forall_forall. intros x Hx.
    specialize (Hnn x Hx). specialize (Hall x Hx). split; lra.
Qed.

Lemma Forall_nth_in {A : Type} (P : A -> Prop) (l : list A) (i : nat) (d : A) :
  Forall P l -> (i < length l)%nat -> P (nth i l d).
Proof.
  intros H Hi. rewrite Forall_forall in H. apply H, nth_In, Hi.
Qed.

Lemma closest_index_lt (times : list Q) (t : Q) :
  times <> [] -> (closest_index times t < length times)%nat.
Proof.
  intro H. destruct (closest_index_spec times t H) as (Hlt & _).
  rewrite length_map in Hlt. exact Hlt.
Qed.

(** X1.  In a run on non-negative band means every timeline entry has its
    [bass], [mid] and [high] between 0 and 1. *)
Theorem timeline_bands_unit_interval (f : features) (out : output) :
  analyze_features f = Ok out ->
  Forall (fun b => 0 <= bf_bass b /\ 0 <= bf_mid b /\ 0 <= bf_high b)
         (ft_bands f) ->
  Forall (fun e => 0 <= e_bass e <= 1
                   /\ 0 <= e_mid e <= 1
                   /\ 0 <= e_high e <= 1)
         (o_timeline out).
Proof.
  intros Hrun Hnn. apply analyze_features_inv in Hrun.
  destruct Hrun as (onset_env & bass_energy & mid_energy & high_energy
                    & _ & Hb & Hm & Hh & Hlen & Hout).
  simpl in Hout. subst out. simpl.
  assert (Hnb : Forall (fun x => 0 <= x <= 1) bass_energy).
  { apply (normalize_band_unit_interval _ _ Hb).
    apply Forall_map. eapply Forall_impl; [|exact Hnn]. simpl. tauto. }
  assert (Hnm : Forall (fun x => 0 <= x <= 1) mid_energy).
  { apply (normalize_band_unit_interval _ _ Hm).
    apply Forall_map. eapply Forall_impl; [|exact Hnn]. simpl. tauto. }
  assert (Hnh : Forall (fun x => 0 <= x <= 1) high_energy).
  { apply (normalize_band_unit_interval _ _ Hh).
    apply Forall_map. eapply Forall_impl; [|exact Hnn]. simpl. tauto. }
  pose proof (normalize_band_length _ _ Hm) as Hlm.
  pose proof (normalize_band_length _ _ Hh) as Hlh.
  rewrite length_map in Hlm, Hlh.
  pose proof (normalize_band_nonempty _ _ Hb) as Hne.
  rewrite length_map in Hne.
  apply Forall_forall. intros e He. unfold build_timeline in He.
  apply in_map_iff in He. destruct He as (t & <- & _). simpl.
  assert (Hidx : (closest_index (frame_times (ft_sr f) (length bass_energy)) t
                  < length bass_energy)%nat).
  { assert (Hpos : (0 < length bass_energy)%nat) by lia.
    pose proof (closest_index_lt _ t (frame_times_nonempty (ft_sr f) _ Hpos))
      as H.
    rewrite frame_times_length in H. exact H. }
  split; [|split]; apply py_round3_unit; apply Forall_nth_in;
    try assumption; lia.
Qed.

Lemma timeline_bands_unit_interval_witness :
  Forall (fun e => 0 <= e_bass e <= 1
                   /\ 0 <= e_mid e <= 1
                   /\ 0 <= e_high e <= 1)
         (o_timeline (result_of one_entry)).
Proof.
  apply (timeline_bands_unit_interval one_entry).
  - run_ok.
  - apply Forall_forall. intros b Hb.
    unfold one_entry in Hb. cbn [ft_bands] in Hb.
    apply in_map_iff in Hb. destruct Hb as (i & <- & _).
    destruct (40 <=? i)%nat; cbn [quiet_frame bf_bass bf_mid bf_high];
      (split; [|split]); discriminate.
Defined.

(** X2.  In a run on a non-negative onset envelope that is not all zero,
    the [onset] of every timeline entry is a finite value between 0 and
    1. *)
Theorem timeline_onset_unit_interval (f : features) (out : output) :
  analyze_features f = Ok out ->
  Forall (fun x => 0 <= x) (ft_onset_env f) ->
  Exists (fun x => 0 < x) (ft_onset_env f) ->
  Forall (fun e => exists v, e_onset e = Finite v /\ 0 <= v <= 1)
         (o_timeline out).
Proof.
  intros Hrun Hnn Hex. apply analyze_features_inv in Hrun.
  destruct Hrun as (onset_env & bass_energy & mid_energy & high_energy
                    & Ho & _ & _ & _ & _ & Hout).
  simpl in Hout. subst out. simpl.
  assert (Hne : ft_onset_env f <> [])
    by (intro E; rewrite E in Hex; inversion Hex).
  destruct (np_max_total _ Hne) as [m Hm].
  pose proof (np_max_positive _ m Hm Hex) as Hpos.
  pose proof (np_max_spec _ m Hm) as [_ Hall].
  unfold normalize_onset in Ho. rewrite Hm in Ho. simpl in Ho.
  injection Ho as <-.
  apply Forall_forall. intros e He. unfold build_timeline in He.
  apply in_map_iff in He. destruct He as (t & <- & _). simpl.
  set (i := closest_index (frame_times (ft_sr f) (length (ft_onset_env f))) t).
  assert (Hi : (i < length (ft_onset_env f))%nat).
  { assert (Hlen : (0 < length (ft_onset_env f))%nat)
      by (destruct (ft_onset_env f); [contradiction | simpl; lia]).
    pose proof (closest_index_lt _ t
                  (frame_times_nonempty (ft_sr f) _ Hlen)) as H.
    rewrite frame_times_length in H. exact H. }
  rewrite (nth_map_in _ _ _ 0) by exact Hi.
  rewrite np_div_finite by lra. simpl.
  eexists. split; [reflexivity|].
  apply py_round3_unit.
  pose proof (Forall_nth_in _ _ i 0 Hnn Hi) as H0.
  pose proof (Forall_nth_in _ _ i 0 Hall Hi) as H1.
  simpl in H0, H1. split.
  - apply Qle_shift_div_l; [exact Hpos | lra].
  - apply Qle_shift_div_r; [exact Hpos | lra].
Qed.

Lemma timeline_onset_unit_interval_witness :
  Forall (fun e => exists v, e_onset e = Finite v /\ 0 <= v <= 1)
         (o_timeline (result_of two_hits)).
Proof.
  apply (timeline_onset_unit_interval two_hits).
  - run_ok.
  - repeat (apply Forall_cons; [discriminate|]). apply Forall_nil.
  - apply Exists_cons_tl, Exists_cons_hd. reflexivity.
Defined.

(** ** When the analysis raises *)

(** X7.  Once librosa has delivered its features, the analysis raises
    exactly when the onset envelope or the spectrogram has no frame, and
    what it raises is the [ValueError] of [np.max]. *)
Theorem analyze_features_outcome (f : features) :
  (ft_onset_env f = [] \/ ft_bands f = [] ->
   exists msg, analyze_features f = Raise (ValueError msg))
  /\ (ft_onset_env f <> [] /\ ft_bands f <> [] ->
      exists out, analyze_features f = Ok out).
Proof.
  split.
  - intros H. unfold analyze_features, normalize_onset, normalize_band.
    destruct (ft_onset_env f) as [|o os].
    + eexists. reflexivity.
    + destruct H as [H|H]; [discriminate|]. rewrite H. simpl.
      eexists. reflexivity.
  - intros [Ho Hb]. apply analyze_features_total; assumption.
Qed.

(** ** Counts *)

(** X8.  The [beatCount] of a result is the number of entries of its
    [beats] list, one per beat that librosa found. *)
Theorem beat_count_matches (f : features) (out : output) :
  analyze_features f = Ok out ->
  o_beatCount out = length (o_beats out)
  /\ o_beatCount out = length (ft_beat_times f).
Proof.
  intro Hrun. apply analyze_features_inv in Hrun.
  destruct Hrun as (onset_env & bass_energy & mid_energy & high_energy
                    & _ & _ & _ & _ & _ & Hout).
  simpl in Hout. subst out. simpl. rewrite length_map. split; reflexivity.
Qed.

Lemma beat_count_matches_witness :
  o_beatCount (result_of two_hits) = length (o_beats (result_of two_hits))
  /\ o_beatCount (result_of two_hits) = 2%nat.
Proof.
  apply (beat_count_matches two_hits). run_ok.
Defined.

(** ** Tracks without drops *)

(** X9.  A track of at most 6 spectrogram frames has no transient drop,
    and one of at most 60 frames has no big drop either: the loops never
    reach a frame with a full window. *)
Theorem short_track_no_drops (f : features) (out : output) :
  analyze_features f = Ok out ->
  ((length (ft_bands f) <= 6)%nat -> o_drops out = [])
  /\ ((length (ft_bands f) <= 60)%nat -> o_bigDrops out = []).
Proof.
  intro Hrun. apply analyze_features_inv in Hrun.
  destruct Hrun as (onset_env & bass_energy & mid_energy & high_energy
                    & _ & _ & _ & _ & Hlen & Hout).
  simpl in Hout. subst out. simpl.
  rewrite detect_drops_frames, detect_big_drops_frames. split.
  - intro Hshort.
    destruct (drop_frames (ft_sr f) bass_energy) as [|i F] eqn:E;
      [reflexivity|].
    assert (Hi : In i (drop_frames (ft_sr f) bass_energy))
      by (rewrite E; left; reflexivity).
    apply flagged_In in Hi. destruct Hi as [Hi Hc].
    apply in_seq in Hi. apply drop_candidate_spec in Hc. lia.
  - intro Hshort. unfold big_drop_frames, window_before, window_after.
    replace (length bass_energy - 20 - 40)%nat with 0%nat by lia.
    reflexivity.
Qed.

Lemma short_track_no_drops_witness :
  o_drops (result_of silence) = [] /\ o_bigDrops (result_of silence) = [].
Proof.
  destruct (short_track_no_drops silence (result_of silence)) as [Hd Hb].
  - run_ok.
  - split; [apply Hd | apply Hb]; simpl; lia.
Defined.



Lemma In_slice (a : list Q) (lo hi : nat) (x : Q) :
  In x (slice a lo hi) -> In x a.
Proof.
  unfold slice. intro H.
  rewrite <- (firstn_skipn lo a). apply in_or_app. right.
  rewrite <- (firstn_skipn (hi - lo) (skipn lo a)). apply in_or_app. left.
  exact H.
Qed.

Lemma Qsum_le (c : Q) (l : list Q) :
  Forall (fun x => x <= c) l ->
  Qsum l <= c * inject_Z (Z.of_nat (length l)).
Proof.
  induction 1 as [|x l Hx Hl IH].
  - change (Qsum []) with 0. change (inject_Z (Z.of_nat (length (@nil Q))))
      with 0. lra.
  - change (Qsum (x :: l)) with (x + Qsum l).
    replace (Z.of_nat (length (x :: l))) with (1 + Z.of_nat (length l))%Z
      by (simpl length; lia).
    rewrite inject_Z_plus. change (inject_Z 1) with 1. lra.
Qed.

(** The mean of values that are all at most [c] is at most [c]. *)
Lemma np_mean_le (c : Q) (l : list Q) :
  l <> [] -> Forall (fun x => x <= c) l -> np_mean l <= c.
Proof.
  intros Hne Hall. unfold np_mean.
  assert (Hlen : 0 < inject_Z (Z.of_nat (length l))).
  { change 0 with (inject_Z 0). rewrite <- Zlt_Qlt.
    destruct l; [contradiction | simpl length; lia]. }
  apply Qle_shift_div_r; [exact Hlen|]. apply Qsum_le, Hall.
Qed.

(** A bass curve that never rises above 0.3 has no big drop. *)
Lemma quiet_curve_no_big_drop (sr : positive) (duration : Q)
    (bass_energy : list Q) :
  Forall (fun x => x <= 0.3) bass_energy ->
  detect_big_drops duration bass_energy (frame_times sr (length bass_energy))
  = [].
Proof.
  intro Hquiet. rewrite detect_big_drops_frames.
  destruct (big_drop_frames sr bass_energy) as [|i F] eqn:E; [reflexivity|].
  assert (Hi : In i (big_drop_frames sr bass_energy))
    by (rewrite E; left; reflexivity).
  pose proof (big_drop_frames_range _ _ _ Hi) as Hrange.
  apply flagged_In in Hi. destruct Hi as [_ Hc].
  apply big_drop_candidate_spec in Hc. destruct Hc as (_ & Hloud & _).
  assert (Hmean : bass_after bass_energy i <= 0.3).
  { unfold bass_after. apply np_mean_le.
    - intro Hnil. apply (f_equal (@length Q)) in Hnil.
      rewrite slice_length in Hnil by lia.
      unfold window_after in Hnil. simpl in Hnil. lia.
    - apply Forall_forall. intros x Hx. apply In_slice in Hx.
      rewrite Forall_forall in Hquiet. apply Hquiet, Hx. }
  lra.
Qed.

(** ** How many drops fit into a track *)

Lemma flagged_count_bound (time : nat -> Q) (cand : nat -> bool)
    (gap T : Q) (l : list nat) :
  Forall (fun k => time k <= T) l ->
  forall last,
    last <= T ->
    last + gap * inject_Z (Z.of_nat (length (flagged time cand gap last l)))
    <= T.
Proof.
  induction 1 as [|i l Hi Hl IH]; intros last Hlast.
  - change (inject_Z (Z.of_nat (length (flagged time cand gap last []))))
      with 0. lra.
  - simpl flagged.
    destruct (cand i && Qltb gap (time i - last)) eqn:E.
    + apply andb_true_iff in E. destruct E as [_ E]. apply Qltb_lt in E.
      specialize (IH (time i) Hi).
      replace (Z.of_nat (length (i :: flagged time cand gap (time i) l)))
        with (1 + Z.of_nat (length (flagged time cand gap (time i) l)))%Z
        by (simpl length; lia).
      rewrite inject_Z_plus. change (inject_Z 1) with 1.
      set (n := inject_Z (Z.of_nat (length (flagged time cand gap (time i) l))))
        in *.
      setoid_replace (gap * (1 + n)) with (gap + gap * n) by ring.
      lra.
    + apply IH, Hlast.
Qed.

Lemma frames_before (sr : positive) (a len n : nat) :
  (len = 0 \/ a + len <= n)%nat ->
  Forall (fun k => frames_to_time sr k <= frames_to_time sr n) (seq a len).
Proof.
  intro H. apply Forall_forall. intros k Hk. apply in_seq in Hk.
  destruct (Nat.eq_dec k n) as [->|Hne]; [lra|].
  apply Qlt_le_weak, frames_to_time_lt. lia.
Qed.

(** X12.  Debouncing bounds the number of drops by the length of the
    track: [k] transient drops need at least [2 (k - 1)] seconds of
    spectrogram frames and [k] big drops at least [10 (k - 1)] seconds. *)
Theorem drop_count_bound (f : features) (out : output) :
  analyze_features f = Ok out ->
  let T := frames_to_time (ft_sr f) (length (ft_bands f)) in
  2 * inject_Z (Z.of_nat (length (o_drops out))) <= T + 2
  /\ 10 * inject_Z (Z.of_nat (length (o_bigDrops out))) <= T + 10.
Proof.
  intros Hrun T. apply analyze_features_inv in Hrun.
  destruct Hrun as (onset_env & bass_energy & mid_energy & high_energy
                    & _ & _ & _ & _ & Hlen & Hout).
  simpl in Hout. subst out. simpl.
  rewrite detect_drops_frames, detect_big_drops_frames, !length_map.
  assert (HT : 0 <= T).
  { unfold T. rewrite <- (frames_to_time_0 (ft_sr f)).
    destruct (length (ft_bands f)) as [|n]; [lra|].
    apply Qlt_le_weak, frames_to_time_lt. lia. }
  unfold T in *. rewrite <- Hlen in *. clear Hlen.
  split.
  - pose proof (flagged_count_bound (frames_to_time (ft_sr f))
                  (drop_candidate bass_energy) min_drop_gap _
                  (seq 1 (length bass_energy - 1))
                  (frames_before (ft_sr f) 1 (length bass_energy - 1)
                     (length bass_energy) ltac:(lia))
                  (- min_drop_gap)) as H.
    unfold drop_frames. unfold min_drop_gap in *.
    specialize (H ltac:(lra)). lra.
  - pose proof (flagged_count_bound (frames_to_time (ft_sr f))
                  (big_drop_candidate bass_energy) min_big_drop_gap _
                  (seq window_before
                       (length bass_energy - window_after - window_before))
                  (frames_before (ft_sr f) window_before
                     (length bass_energy - window_after - window_before)
                     (length bass_energy)
                     ltac:(unfold window_before, window_after; lia))
                  (- min_big_drop_gap)) as H.
    unfold big_drop_frames. unfold min_big_drop_gap in *.
    specialize (H ltac:(lra)). lra.
Qed.

Lemma drop_count_bound_witness :
  2 * inject_Z (Z.of_nat (length (o_drops (result_of two_hits))))
  <= frames_to_time default_sr 120 + 2
  /\ 10 * inject_Z (Z.of_nat (length (o_bigDrops (result_of two_hits))))
     <= frames_to_time default_sr 120 + 10.
Proof.
  apply (drop_count_bound two_hits). run_ok.
Defined.

(** ** Flags on the timeline *)

Lemma py_round3_nonneg (x : Q) : 0 <= x -> 0 <= py_round 3 x.
Proof.
  intro H0.
  assert (H : inject_Z 0 / inject_Z (pow10 3) <= x)
    by (setoid_replace (inject_Z 0 / inject_Z (pow10 3)) with 0
          by reflexivity; exact H0).
  apply py_round_lower in H.
  setoid_replace (inject_Z 0 / inject_Z (pow10 3)) with 0 in H
    by reflexivity.
  exact H.
Qed.

(** X14.  Every recorded transient drop that lies before the end of the
    track shows on the timeline: some entry has [drop] set. *)
Theorem drop_shows_on_timeline (f : features) (out : output) (x : Q) :
  analyze_features f = Ok out ->
  In x (o_drops out) ->
  x < ft_duration f ->
  exists k, (k < length (o_timeline out))%nat
            /\ forall d, e_drop (nth k (o_timeline out) d) = true.
Proof.
  intros Hrun Hx Hdur.
  apply analyze_features_inv in Hrun.
  destruct Hrun as (onset_env & bass_energy & mid_energy & high_energy
                    & _ & _ & _ & _ & _ & Hout).
  simpl in Hout.
  assert (Hx0 : 0 <= x).
  { rewrite Hout in Hx. simpl in Hx. rewrite detect_drops_frames in Hx.
    apply in_map_iff in Hx. destruct Hx as (i & <- & _).
    apply py_round3_nonneg.
    rewrite <- (frames_to_time_0 (ft_sr f)).
    destruct i as [|i]; [lra|].
    apply Qlt_le_weak, frames_to_time_lt. lia. }
  set (q := x / sample_interval).
  assert (Hq0 : 0 <= q).
  { unfold q. apply Qle_shift_div_l; [reflexivity | lra]. }
  set (k := Z.to_nat (Qfloor q)).
  assert (Hk : inject_Z (Z.of_nat k) <= q < inject_Z (Z.of_nat k) + 1).
  { assert (Hfl : (0 <= Qfloor q)%Z).
    { apply Qfloor_resp_le in Hq0. change (Qfloor 0) with 0%Z in Hq0.
      exact Hq0. }
    unfold k. rewrite Z2Nat.id by exact Hfl.
    pose proof (Qfloor_le q). pose proof (Qlt_floor q) as Hlt.
    rewrite inject_Z_plus in Hlt. change (inject_Z 1) with 1 in Hlt.
    split; assumption. }
  assert (Hxq : x == q * sample_interval)
    by (unfold q; field; unfold sample_interval; lra).
  assert (Htick : tick k <= x < tick k + sample_interval).
  { unfold tick. assert (Hs : sample_interval == 0.05) by reflexivity.
    rewrite Hxq. rewrite Hs. split; lra. }
  assert (Hlen : (k < length (o_timeline out))%nat).
  { rewrite Hout. simpl. unfold build_timeline. rewrite length_map.
    apply ticks_enough. lra. }
  exists k. split; [exact Hlen|]. intro d.
  rewrite Hout in Hlen, Hx |- *. simpl in Hlen, Hx |- *.
  rewrite timeline_nth by exact Hlen. simpl.
  apply any_within_spec. exists x. split; [exact Hx|].
  apply Qabs_Qlt_condition.
  assert (Hs : sample_interval == 0.05) by reflexivity. split; lra.
Qed.

Lemma drop_shows_on_timeline_witness :
  exists k, (k < length (o_timeline (result_of two_hits)))%nat
            /\ forall d,
                 e_drop (nth k (o_timeline (result_of two_hits)) d) = true.
Proof.
  apply (drop_shows_on_timeline two_hits (result_of two_hits)
           (py_round 3 (frames_to_time default_sr 10))).
  - run_ok.
  - vm_compute. left. reflexivity.
  - vm_compute. reflexivity.
Defined.

(** ** Big-drop percentages *)

(** X15.  When the track has a positive duration and its spectrogram
    frames lie within it, the [percent] of every big drop is a finite value
    between 0 and 100. *)
Theorem big_drop_percent_range (f : features) (out : output) :
  analyze_features f = Ok out ->
  0 < ft_duration f ->
  frames_to_time (ft_sr f) (length (ft_bands f) - 1) <= ft_duration f ->
  Forall (fun r => exists p, bd_percent r = Finite p /\ 0 <= p <= 100)
         (o_bigDrops out).
Proof.
  intros Hrun Hdur Hlast. apply analyze_features_inv in Hrun.
  destruct Hrun as (onset_env & bass_energy & mid_energy & high_energy
                    & _ & _ & _ & _ & Hlen & Hout).
  simpl in Hout. subst out. simpl.
  rewrite detect_big_drops_frames.
  apply Forall_forall. intros r Hr. apply in_map_iff in Hr.
  destruct Hr as (i & <- & Hi).
  apply big_drop_frames_range in Hi. unfold window_after in Hi.
  set (t := frames_to_time (ft_sr f) i).
  destruct (big_drop_record_fields (ft_duration f) t
              (bass_before bass_energy i) (bass_after bass_energy i))
    as (_ & _ & Hp & _).
  exists (py_round 1 (fl64 (fl64 (fl64 t / fl64 (ft_duration f)) * 100))).
  split; [exact (Hp Hdur)|].
  assert (Ht0 : 0 <= t).
  { unfold t. rewrite <- (frames_to_time_0 (ft_sr f)).
    destruct i as [|i]; [lra|].
    apply Qlt_le_weak, frames_to_time_lt. lia. }
  assert (Ht1 : t <= ft_duration f).
  { assert (t < frames_to_time (ft_sr f) (length (ft_bands f) - 1))
      by (apply frames_to_time_lt; lia).
    lra. }
  assert (H53 : (1 <= 53)%Z) by lia.
  pose proof (fl_nonneg 53 H53 t Ht0) as Hft0.
  pose proof (fl_mono 53 H53 t (ft_duration f) Ht1) as Hft1.
  pose proof (fl_pos 53 H53 (ft_duration f) Hdur) as Hfd.
  fold fl64 in Hft0, Hft1, Hfd.
  set (q := fl64 t / fl64 (ft_duration f)).
  assert (Hq0 : 0 <= q)
    by (unfold q; apply Qle_shift_div_l; [exact Hfd | lra]).
  assert (Hq1 : q <= 1)
    by (unfold q; apply Qle_shift_div_r; [exact Hfd | lra]).
  pose proof (fl_nonneg 53 H53 q Hq0) as Hr0.
  pose proof (fl_mono 53 H53 q 1 Hq1) as Hr1.
  fold fl64 in Hr0, Hr1.
  assert (E1 : fl64 1 == 1) by (vm_compute; reflexivity).
  rewrite E1 in Hr1.
  set (r := fl64 q) in *.
  pose proof (fl_nonneg 53 H53 (r * 100) ltac:(lra)) as Hp0.
  pose proof (fl_mono 53 H53 (r * 100) 100 ltac:(lra)) as Hp1.
  fold fl64 in Hp0, Hp1.
  assert (E100 : fl64 100 == 100) by (vm_compute; reflexivity).
  rewrite E100 in Hp1.
  split.
  - assert (H : inject_Z 0 / inject_Z (pow10 1) <= fl64 (r * 100))
      by (setoid_replace (inject_Z 0 / inject_Z (pow10 1)) with 0
            by reflexivity; exact Hp0).
    apply py_round_lower in H.
    setoid_replace (inject_Z 0 / inject_Z (pow10 1)) with 0 in H
      by reflexivity.
    exact H.
  - assert (H : fl64 (r * 100) <= inject_Z 1000 / inject_Z (pow10 1))
      by (setoid_replace (inject_Z 1000 / inject_Z (pow10 1)) with 100
            by reflexivity; exact Hp1).
    apply py_round_upper in H.
    setoid_replace (inject_Z 1000 / inject_Z (pow10 1)) with 100 in H
      by reflexivity.
    exact H.
Qed.

Lemma big_drop_percent_range_witness :
  Forall (fun r => exists p, bd_percent r = Finite p /\ 0 <= p <= 100)
         (o_bigDrops (result_of one_entry)).
Proof.
  apply (big_drop_percent_range one_entry).
  - run_ok.
  - reflexivity.
  - vm_compute. discriminate.
Defined.

(** ** Exit status *)

(** X16.  [main] exits with status 0 or 1, and with 0 exactly when a file
    argument was given, the analysis returned, and the file now holds the
    complete dump of what it returned; the summary it prints is that of the
    dumped data. *)
Theorem main_exit_status (w : world) :
  (r_exit (main w) = 0%Z \/ r_exit (main w) = 1%Z)
  /\ (r_exit (main w) = 0%Z
      <-> exists prog filepath rest data,
            w_argv w = prog :: filepath :: rest
            /\ analyze_music (w_provider w) filepath = Ok data
            /\ w_fault w = NoFault
            /\ r_file (main w) = Dumped data
            /\ r_stdout (main w)
               = [SuccessLine output_file;
                  DurationLine (o_duration data);
                  TempoLine (o_tempo data);
                  BeatsLine (o_beatCount data);
                  EntriesLine (length (o_timeline data))]).
Proof.
  unfold main.
  destruct (w_argv w) as [|prog [|filepath rest]]; simpl.
  - split; [right; reflexivity|]. split; [discriminate|].
    intros (p & fp & r & d & H & _). discriminate.
  - split; [right; reflexivity|]. split; [discriminate|].
    intros (p & fp & r & d & H & _). discriminate.
  - destruct (analyze_music (w_provider w) filepath) as [data|e] eqn:Erun;
      simpl.
    + destruct (w_fault w) as [|e|e written] eqn:Ef; simpl.
      * split; [left; reflexivity|]. split; [|reflexivity].
        intros _. exists prog, filepath, rest, data.
        repeat split; assumption.
      * split; [right; reflexivity|]. split; [discriminate|].
        intros (p & fp & r & d & _ & _ & H & _). discriminate.
      * split; [right; reflexivity|]. split; [discriminate|].
        intros (p & fp & r & d & _ & _ & H & _). discriminate.
    + split; [right; reflexivity|]. split; [discriminate|].
      intros (p & fp & r & d & H & Hrun & _).
      injection H as <- <- <-. rewrite Erun in Hrun. discriminate.
Qed.

(** ** How far the sampled frame can be *)






(** ** Normalisation at work *)

Lemma normalize_band_max_witness :
  exists e' m',
    normalize_band [1; 4; 0] = Ok e' /\ np_max e' = Ok m' /\ m' == 1.
Proof.
  apply (normalize_band_max [1; 4; 0]).
  - repeat (apply Forall_cons; [discriminate|]). apply Forall_nil.
  - apply Exists_cons_hd. reflexivity.
Defined.

Lemma normalize_band_zero_witness :
  normalize_band [0; 0 # 5; 0] = Ok [0; 0 # 5; 0].
Proof.
  apply (normalize_band_zero [0; 0 # 5; 0]).
  - discriminate.
  - repeat (apply Forall_cons; [reflexivity|]). apply Forall_nil.
Defined.

Lemma normalize_onset_max_witness :
  exists e' m',
    normalize_onset [0; 1; 4; 2] = Ok (map Finite e')
    /\ np_max e' = Ok m' /\ m' == 1.
Proof.
  apply (normalize_onset_max [0; 1; 4; 2]).
  - repeat (apply Forall_cons; [discriminate|]). apply Forall_nil.
  - apply Exists_cons_tl, Exists_cons_hd. reflexivity.
Defined.

Lemma normalize_onset_zero_witness :
  normalize_onset [0; 0 # 3] = Ok (map (fun _ => NaN) [0; 0 # 3]).
Proof.
  apply (normalize_onset_zero [0; 0 # 3]).
  - discriminate.
  - repeat (apply Forall_cons; [reflexivity|]). apply Forall_nil.
Defined.

(** ** Silence *)

Lemma Qsum_nonneg (l : list Q) : Forall (fun x => 0 <= x) l -> 0 <= Qsum l.
Proof.
  induction 1 as [|x l Hx Hl IH].
  - change (Qsum []) with 0. lra.
  - change (Qsum (x :: l)) with (x + Qsum l). lra.
Qed.

Lemma np_mean_nonneg (l : list Q) :
  Forall (fun x => 0 <= x) l -> 0 <= np_mean l.
Proof.
  intro H. unfold np_mean.
  pose proof (Qsum_nonneg l H) as Hs.
  destruct l as [|x l].
  - change (Qsum []) with 0. change (length (@nil Q)) with 0%nat.
    change (inject_Z (Z.of_nat 0)) with 0. discriminate.
  - apply Qle_shift_div_l; [|lra].
    change 0 with (inject_Z 0). rewrite <- Zlt_Qlt. simpl length. lia.
Qed.

(** An all-zero band stays all zero under normalisation. *)
Lemma normalize_band_silent (e e' : list Q) :
  normalize_band e = Ok e' ->
  Forall (fun x => x == 0) e -> Forall (fun x => x == 0) e'.
Proof.
  unfold normalize_band. intros Hn Hz.
  destruct (np_max e) as [m|] eqn:Hm; simpl in Hn; [|discriminate].
  pose proof (np_max_spec e m Hm) as [Hin _].
  pose proof Hz as Hz'. rewrite Forall_forall in Hz'.
  specialize (Hz' m Hin).
  assert (E : Qltb 0 m = false) by (apply Qltb_ge; lra).
  rewrite E in Hn. injection Hn as <-. exact Hz.
Qed.

(** X11.  A run on a track whose bass band is silent in every frame
    records no transient drop and no big drop. *)
Theorem silent_bass_no_drops (f : features) (out : output) :
  analyze_features f = Ok out ->
  Forall (fun b => bf_bass b == 0) (ft_bands f) ->
  o_drops out = [] /\ o_bigDrops out = [].
Proof.
  intros Hrun Hsilent. apply analyze_features_inv in Hrun.
  destruct Hrun as (onset_env & bass_energy & mid_energy & high_energy
                    & _ & Hb & _ & _ & _ & Hout).
  simpl in Hout. subst out. simpl.
  assert (Hz : Forall (fun x => x == 0) bass_energy).
  { apply (normalize_band_silent _ _ Hb). apply Forall_map. exact Hsilent. }
  split.
  - rewrite detect_drops_frames.
    destruct (drop_frames (ft_sr f) bass_energy) as [|i F] eqn:E;
      [reflexivity|].
    assert (Hi : In i (drop_frames (ft_sr f) bass_energy))
      by (rewrite E; left; reflexivity).
    apply flagged_In in Hi. destruct Hi as [Hi Hc].
    apply in_seq in Hi. apply drop_candidate_spec in Hc.
    destruct Hc as (_ & _ & Hspike).
    assert (Hcur : nth i bass_energy 0 == 0)
      by (apply (Forall_nth_in _ _ i 0 Hz); lia).
    assert (Hmean : 0 <= np_mean (slice bass_energy (i - 5) i)).
    { apply np_mean_nonneg, Forall_forall. intros x Hx.
      apply In_slice in Hx. rewrite Forall_forall in Hz.
      specialize (Hz x Hx). lra. }
    lra.
  - apply quiet_curve_no_big_drop.
    eapply Forall_impl; [|exact Hz]. simpl. intros x Hx. lra.
Qed.

Lemma silent_bass_no_drops_witness :
  o_drops (result_of long_silence) = []
  /\ o_bigDrops (result_of long_silence) = [].
Proof.
  apply (silent_bass_no_drops long_silence).
  - run_ok.
  - apply Forall_forall. intros b Hb.
    unfold long_silence in Hb. cbn [ft_bands] in Hb.
    apply in_map_iff in Hb. destruct Hb as (i & <- & _). reflexivity.
Defined.

(** ** Percentages in double precision *)

(** Frame 47 of a track of 40960 samples lies at exactly 58.75 % of it;
    the doubles give 58.74999999999999, recorded as 58.7.  Frame 41 of
    1024000 samples lies at exactly 2.05 %, recorded as 2.1. *)
Lemma percent_in_doubles :
  bd_percent (big_drop_record (fl64 (40960 # 22050))
                              (frames_to_time default_sr 47) 0 1)
  = np_round 1 (Finite 58.7)
  /\ bd_percent (big_drop_record (fl64 (1024000 # 22050))
                                 (frames_to_time default_sr 41) 0 1)
     = np_round 1 (Finite 2.1).
Proof.
  split; vm_compute; reflexivity.
Qed.
